(** * fix_sqlx_syntax.py: the two regular-expression rewrites, verified

    The script reads one Rust source file, runs two [re.sub] passes over its
    text, writes the result back and prints how many [.bind(] it now holds.
    This development embeds

    - the character classes of Python's [re] on [str] patterns (white
      space, word characters, anything but a double quote) for code points
      below 256: a buffer is a [list ascii], the text as [f.read()] returns
      it, and buffers with code points from 256 on are outside the model;
    - a backtracking matcher for the fragment of regular expressions the
      two patterns use (literals, classes, greedy star, ordered alternation,
      capturing groups), with the two patterns as terms of that fragment;
    - [re.sub] (leftmost, non-overlapping scan) and [str.count];
    - the script's file traffic as a small state-and-failure monad over a
      store of regular files, with their write permissions, the console and
      an event log. *)

From Stdlib Require Import Ascii String List Arith Bool Lia.
Import ListNotations.

Set Implicit Arguments.

(** ** Text *)

Definition text := list ascii.

Definition str (s : string) : text := list_ascii_of_string s.

(** The double quote and the line feed, which a string literal here cannot
    hold. *)
Definition dq : ascii := ascii_of_nat 34.
Definition nl : ascii := ascii_of_nat 10.

Definition code (c : ascii) : nat := nat_of_ascii c.

Definition between (lo hi n : nat) : bool := (lo <=? n) && (n <=? hi).

(** [\s] on a [str] pattern: the characters for which [str.isspace] holds.
    Below 256 these are TAB..CR, FS..US, SPACE, NEL and NBSP. *)
Definition is_space (c : ascii) : bool :=
  let n := code c in
  between 9 13 n || between 28 32 n || (n =? 133) || (n =? 160).

(** [\w] on a [str] pattern: alphanumerics in the Unicode sense, and the
    underscore.  Below 256: the ASCII letters and digits, [_], and the
    Latin-1 letters, superscript digits and vulgar fractions. *)
Definition is_word (c : ascii) : bool :=
  let n := code c in
  between 48 57 n || between 65 90 n || (n =? 95) || between 97 122 n
  || (n =? 170) || between 178 179 n || (n =? 181) || between 185 186 n
  || between 188 190 n || between 192 214 n || between 216 246 n
  || between 248 255 n.

(** The class of every character but the double quote. *)
Definition not_dq (c : ascii) : bool := negb (Ascii.eqb c dq).

(** ** Regular expressions: the fragment the script uses *)

Inductive regex : Type :=
| Lit (c : ascii)                 (* one literal character *)
| Cls (p : ascii -> bool)         (* one character of a class *)
| Star (p : ascii -> bool)        (* greedy [c*] over a class *)
| Seq (r1 r2 : regex)
| Alt (r1 r2 : regex)             (* ordered alternation *)
| Grp (n : nat) (r : regex).      (* capturing group number [n] *)

(** The captured groups of a match, most recent binding first. *)
Definition groups := list (nat * text).

Fixpoint group (n : nat) (g : groups) : text :=
  match g with
  | [] => []
  | (m, t) :: g' => if n =? m then t else group n g'
  end.

(** Greedy star with backtracking: take one more character when the class
    allows it and the rest of the pattern then succeeds, else stop here. *)
Fixpoint star_bt (A : Type) (p : ascii -> bool) (s : text)
  (k : text -> option A) : option A :=
  match s with
  | c :: s' =>
      if p c then
        match star_bt p s' k with
        | Some r => Some r
        | None => k s
        end
      else k s
  | [] => k s
  end.

(** The matcher, in continuation-passing style: [k] is the rest of the
    pattern, fed the unread text and the groups; the first success wins. *)
Fixpoint bt (A : Type) (r : regex) (s : text) (g : groups)
  (k : text -> groups -> option A) : option A :=
  match r with
  | Lit c =>
      match s with
      | x :: s' => if Ascii.eqb x c then k s' g else None
      | [] => None
      end
  | Cls p =>
      match s with
      | x :: s' => if p x then k s' g else None
      | [] => None
      end
  | Star p => star_bt p s (fun s' => k s' g)
  | Seq r1 r2 => bt r1 s g (fun s' g' => bt r2 s' g' k)
  | Alt r1 r2 =>
      match bt r1 s g k with
      | Some x => Some x
      | None => bt r2 s g k
      end
  | Grp n r =>
      bt r s g
        (fun s' g' => k s' ((n, firstn (length s - length s') s) :: g'))
  end.

(** A match anchored at the head of [s]: how many characters it spans, and
    its groups.  Neither pattern of the script looks behind its start, so
    the text before the match plays no part. *)
Definition match_at (r : regex) (s : text) : option (nat * groups) :=
  bt r s [] (fun s' g => Some (length s - length s', g)).

(** A literal string.  The empty one, which neither pattern has, is the
    star of the empty class. *)
Fixpoint lits (t : text) : regex :=
  match t with
  | [] => Star (fun _ => false)
  | [c] => Lit c
  | c :: t' => Seq (Lit c) (lits t')
  end.

Definition plus (p : ascii -> bool) : regex := Seq (Cls p) (Star p).

Infix ";;" := Seq (at level 61, right associativity).

(** The pattern of step 1, written with DQ for the double quote:
    [(sqlx::query\(\s*r#DQ[^DQ]*DQ#),\s*(\w+)\s*\)].  The flags MULTILINE and
    DOTALL change the anchors and the dot, none of which occurs in it. *)
Definition pattern : regex :=
  Grp 1 (lits (str "sqlx::query(") ;; Star is_space ;; lits (str "r#") ;;
         Lit dq ;; Star not_dq ;; Lit dq ;; Lit "#") ;;
  Lit "," ;; Star is_space ;; Grp 2 (plus is_word) ;; Star is_space ;;
  Lit ")".

(** The pattern of step 2: [\)\s*\n\s*\)\s*\n\s*\.(fetch_(?:one|all))]. *)
Definition cleanup_pattern : regex :=
  Lit ")" ;; Star is_space ;; Lit nl ;; Star is_space ;;
  Lit ")" ;; Star is_space ;; Lit nl ;; Star is_space ;;
  Lit "." ;;
  Grp 1 (lits (str "fetch_") ;; Alt (lits (str "one")) (lits (str "all"))).

(** ** [re.sub] and [str.count] *)

(** [re.sub]: scan left to right; where the pattern matches, emit the
    replacement and skip the matched span; elsewhere copy one character.
    [skip] counts the characters of the current span still to pass over.
    Both patterns span at least one character (see [pattern_span] and
    [cleanup_span]), so the rules for empty matches never apply. *)
Fixpoint sub_aux (r : regex) (repl : groups -> text) (s : text)
  (skip : nat) : text :=
  match s with
  | [] => []
  | c :: s' =>
      match skip with
      | S k => sub_aux r repl s' k
      | O =>
          match match_at r s with
          | Some (n, g) => repl g ++ sub_aux r repl s' (n - 1)
          | None => c :: sub_aux r repl s' 0
          end
      end
  end.

Definition re_sub (r : regex) (repl : groups -> text) (s : text) : text :=
  sub_aux r repl s 0.

Fixpoint starts_with (needle s : text) : bool :=
  match needle, s with
  | [], _ => true
  | _ :: _, [] => false
  | a :: needle', b :: s' => Ascii.eqb a b && starts_with needle' s'
  end.

(** [str.count]: occurrences found scanning left to right, none
    overlapping an earlier one. *)
Fixpoint count_aux (needle s : text) (skip : nat) : nat :=
  match s with
  | [] => 0
  | _ :: s' =>
      match skip with
      | S k => count_aux needle s' k
      | O =>
          if starts_with needle s
          then S (count_aux needle s' (length needle - 1))
          else count_aux needle s' 0
      end
  end.

Definition count (needle s : text) : nat := count_aux needle s 0.

(** ** The transformation *)

Definition indent : text := str "        ".

(** [replace_query]: [f'{query_part})\n        .bind({param})']. *)
Definition replace_query (g : groups) : text :=
  group 1 g ++ str ")" ++ [nl] ++ indent ++ str ".bind(" ++ group 2 g
  ++ str ")".

(** The template [r')\n        .\1']. *)
Definition cleanup_template (g : groups) : text :=
  str ")" ++ [nl] ++ indent ++ str "." ++ group 1 g.

Definition step1 (content : text) : text :=
  re_sub pattern replace_query content.

Definition step2 (content : text) : text :=
  re_sub cleanup_pattern cleanup_template content.

Definition bind_marker : text := str ".bind(".

(** The pure core of [fix_sqlx_syntax], the operation the specification
    calls [rewrite]: the text written back, [fixed_content], and the number
    printed, [fixed_count]. *)
Definition rewrite (content : text) : text * nat :=
  let fixed_content := step2 (step1 content) in
  (fixed_content, count bind_marker fixed_content).

(** How many substitutions a [re.sub] scan performs (what [re.subn] would
    report): the call sites step 1 really rewrites. *)
Fixpoint subn_aux (r : regex) (s : text) (skip : nat) : nat :=
  match s with
  | [] => 0
  | _ :: s' =>
      match skip with
      | S k => subn_aux r s' k
      | O =>
          match match_at r s with
          | Some (n, _) => S (subn_aux r s' (n - 1))
          | None => subn_aux r s' 0
          end
      end
  end.

Definition rewritten_sites (content : text) : nat :=
  subn_aux pattern content 0.

(** ** Reading aids for the proofs

    Runs of a class, prefix removal, and the two patterns read off as
    straight-line scanners.  [pattern_scan] and [cleanup_scan] below prove
    the scanners equal to the backtracking matcher on every text. *)

Fixpoint take_while (p : ascii -> bool) (s : text) : text :=
  match s with
  | c :: s' => if p c then c :: take_while p s' else []
  | [] => []
  end.

Fixpoint drop_while (p : ascii -> bool) (s : text) : text :=
  match s with
  | c :: s' => if p c then drop_while p s' else s
  | [] => []
  end.

Fixpoint strip (pre s : text) : option text :=
  match pre, s with
  | [], _ => Some s
  | _ :: _, [] => None
  | a :: pre', b :: s' => if Ascii.eqb b a then strip pre' s' else None
  end.

Definition has_nl (s : text) : bool := existsb (Ascii.eqb nl) s.

Definition is_nil (s : text) : bool :=
  match s with [] => true | _ :: _ => false end.

Definition scan_call_site (s : text) : option (nat * groups) :=
  match strip (str "sqlx::query(") s with
  | None => None
  | Some s1 =>
  match strip (str "r#" ++ [dq]) (drop_while is_space s1) with
  | None => None
  | Some s3 =>
  match strip (dq :: str "#") (drop_while not_dq s3) with
  | None => None
  | Some s5 =>
  match strip (str ",") s5 with
  | None => None
  | Some s6 =>
      let s7 := drop_while is_space s6 in
      let s8 := drop_while is_word s7 in
      if is_nil (take_while is_word s7) then None else
      match strip (str ")") (drop_while is_space s8) with
      | None => None
      | Some s10 =>
          Some (length s - length s10,
                [(2, firstn (length s7 - length s8) s7);
                 (1, firstn (length s - length s5) s)])
      end
  end end end end.

Definition scan_fetch (s : text) : option text :=
  match strip (str "fetch_") s with
  | None => None
  | Some t =>
      match strip (str "one") t with
      | Some u => Some u
      | None => strip (str "all") t
      end
  end.

Definition scan_cleanup (s : text) : option (nat * groups) :=
  match strip (str ")") s with
  | None => None
  | Some s1 =>
  if negb (has_nl (take_while is_space s1)) then None else
  match strip (str ")") (drop_while is_space s1) with
  | None => None
  | Some s3 =>
  if negb (has_nl (take_while is_space s3)) then None else
  match strip (str ".") (drop_while is_space s3) with
  | None => None
  | Some s5 =>
      match scan_fetch s5 with
      | None => None
      | Some s6 =>
          Some (length s - length s6,
                [(1, firstn (length s5 - length s6) s5)])
      end
  end end end.

(** No match of [r] starts inside [pre], read with [rest] after it. *)
Fixpoint no_match_in (r : regex) (pre rest : text) : bool :=
  match pre with
  | [] => true
  | _ :: pre' =>
      match match_at r (pre ++ rest) with
      | Some _ => false
      | None => no_match_in r pre' rest
      end
  end.

Definition no_match (r : regex) (s : text) : bool := no_match_in r s [].

Definition all_of (p : ascii -> bool) (s : text) : bool := forallb p s.

(** A well-formed call site of step 1: the invocation and raw string
    literal [query_part], then comma, parameter and closing parenthesis;
    and [bound_call], what step 1 puts in its place. *)
Definition query_part (ws1 body : text) : text :=
  str "sqlx::query(" ++ ws1 ++ str "r#" ++ [dq] ++ body ++ [dq] ++ str "#".

Definition call_site (ws1 body ws2 param ws3 : text) : text :=
  query_part ws1 body ++ str "," ++ ws2 ++ param ++ ws3 ++ str ")".

Definition bound_call (ws1 body param : text) : text :=
  query_part ws1 body ++ str ")" ++ [nl] ++ indent ++ str ".bind(" ++ param
  ++ str ")".

Definition well_formed (ws1 body ws2 param ws3 : text) : bool :=
  all_of is_space ws1 && all_of not_dq body && all_of is_space ws2
  && all_of is_word param && negb (is_nil param) && all_of is_space ws3.

(** The shape step 2 collapses, and what it collapses to. *)
Definition stray_site (w1 w2 variant : text) : text :=
  str ")" ++ w1 ++ str ")" ++ w2 ++ str ".fetch_" ++ variant.

Definition collapsed (variant : text) : text :=
  str ")" ++ [nl] ++ indent ++ str ".fetch_" ++ variant.

Definition own_lines (w : text) : bool := all_of is_space w && has_nl w.

Definition is_variant (v : text) : bool :=
  if list_eq_dec ascii_dec v (str "one") then true
  else if list_eq_dec ascii_dec v (str "all") then true else false.

(** Every match of [r] that starts inside [pre], read with [rest] after
    it, also ends inside [pre]. *)
Fixpoint contained (r : regex) (pre rest : text) : bool :=
  match pre with
  | [] => true
  | _ :: pre' =>
      match match_at r (pre ++ rest) with
      | Some (n, _) => (n <=? length pre) && contained r pre' rest
      | None => contained r pre' rest
      end
  end.

(** The closing fence of a raw string, a double quote and a hash, occurs
    nowhere in [s]. *)
Fixpoint fence_free (s : text) : bool :=
  match s with
  | [] => true
  | _ :: s' => negb (starts_with (dq :: str "#") s) && fence_free s'
  end.

Definition has_dq (s : text) : bool := existsb (Ascii.eqb dq) s.

(** The characters a match of the cleanup pattern is made of. *)
Definition cleanup_char (c : ascii) : bool :=
  is_space c || existsb (Ascii.eqb c) (str ").fetch_onal").

(** The head of a call whose first argument is a raw string and whose
    second begins with the word [w] (possibly empty) but goes on with [c]: a
    comma for a further parameter, or an operator or parenthesis of an
    expression.  It ends at [c], where the pattern of step 1 gives up; the
    rest of the call comes after it. *)
Definition odd_call (ws1 body ws2 w ws3 : text) (c : ascii) : text :=
  query_part ws1 body ++ str "," ++ ws2 ++ w ++ ws3 ++ [c].



Definition invocation : text := str "sqlx::query(".


(** A closing parenthesis, white space that holds a line feed, and then a
    match of the cleanup pattern: three closing parentheses on lines of
    their own before a fetch call. *)
Definition starts_triple (s : text) : bool :=
  match s with
  | c :: s1 =>
      Ascii.eqb c ")" && has_nl (take_while is_space s1)
      && match match_at cleanup_pattern (drop_while is_space s1) with
         | Some _ => true
         | None => false
         end
  | [] => false
  end.

(** No such triple starts anywhere in [s]. *)
Fixpoint triple_free (s : text) : bool :=
  match s with
  | [] => true
  | _ :: s' => negb (starts_triple s) && triple_free s'
  end.

(** The opener of a raw string with a hash right behind it. *)
Definition fence_clash : text := str "r#" ++ [dq] ++ str "#".

(** ** The script's file traffic

    The store holds regular files; a directory at a path is outside it.
    A file holds text, [Text t] when [f.read()] returns [t] for it, or bytes
    the codec of [open] cannot decode, [Binary b].  Three things besides the
    content decide what a run can do:

    - [locked p]: opening [p] for writing raises (a file without the
      write permission, or a path where no file can be created);
    - [foreign p]: the file at [p] belongs to someone else, so that
      setting its permission bits raises though its content can be written;
    - [console]: whether standard output can encode the symbols that two
      of the status lines begin with.  Every codec of Python encodes both
      symbols or neither, so one flag stands for the two.

    An operation that raises stops the script, since nothing catches the
    exception; what took effect before stays.  The log records the
    operations that took effect, oldest first. *)

Definition path := string.

Inductive data : Type :=
| Text (t : text)
| Binary (b : list ascii).

Inductive message : Type :=
| BackupCreated (p : path)
| FixedSyntax (p : path)
| FixedQueries (n : nat)
| NowBuild.

(** The lines that begin with a symbol beyond Latin-1: the clipboard of
    the backup line and the check mark of the line that reports the fix. *)
Definition has_symbol (m : message) : bool :=
  match m with
  | BackupCreated _ | FixedSyntax _ => true
  | FixedQueries _ | NowBuild => false
  end.

Inductive event : Type :=
| Copied (src dst : path)
| Opened (p : path)
| Written (p : path) (c : text)
| Printed (m : message).

Record world : Type := World {
  files : path -> option data;
  locked : path -> bool;
  foreign : path -> bool;
  console : bool;
  log : list event
}.

Definition io (A : Type) : Type := world -> world * option A.

Definition ret (A : Type) (a : A) : io A := fun w => (w, Some a).

Definition bind (A B : Type) (m : io A) (f : A -> io B) : io B :=
  fun w =>
    match m w with
    | (w', Some a) => f a w'
    | (w', None) => (w', None)
    end.

Notation "m >>= f" := (bind m f) (at level 58, left associativity).
Notation "m >> f" := (bind m (fun _ => f))
  (at level 58, left associativity).

Definition put (fs : path -> option data) (p : path) (c : data)
  : path -> option data :=
  fun q => if String.eqb q p then Some c else fs q.

Definition set_bit (bits : path -> bool) (p : path) (b : bool)
  : path -> bool :=
  fun q => if String.eqb q p then b else bits q.

Definition emit (e : event) (w : world) : world :=
  World (files w) (locked w) (foreign w) (console w) (log w ++ [e]).

(** Setting the permission bits of [p] raises: a file is there and it is
    someone else's. *)
Definition chmod_refused (w : world) (p : path) : bool :=
  match files w p with
  | Some _ => foreign w p
  | None => false
  end.

(** [shutil.copy(src, dst)]: [copyfile], which opens [src] for reading
    and [dst] for writing and copies the bytes, then [copymode], which sets
    the permission bits of [dst] to those of [src].  When [copymode]
    raises, the content is already copied.  A file the copy creates is the
    user's own. *)
Definition shutil_copy (src dst : path) : io unit :=
  fun w =>
    match files w src with
    | None => (w, None)
    | Some c =>
        if locked w dst then (w, None)
        else if chmod_refused w dst
        then (World (put (files w) dst c) (locked w) (foreign w) (console w)
                (log w ++ [Copied src dst]), None)
        else (World (put (files w) dst c)
                (set_bit (locked w) dst (locked w src))
                (set_bit (foreign w) dst false) (console w)
                (log w ++ [Copied src dst]), Some tt)
    end.

(** [open(p, 'r')] and [f.read()]: the latter raises on bytes that are
    no text. *)
Definition read_text (p : path) : io text :=
  fun w =>
    match files w p with
    | None => (w, None)
    | Some (Text c) => (emit (Opened p) w, Some c)
    | Some (Binary _) => (emit (Opened p) w, None)
    end.

(** [open(p, 'w')] and [f.write(c)]. *)
Definition write_text (p : path) (c : text) : io unit :=
  fun w =>
    if locked w p then (w, None)
    else (World (put (files w) p (Text c)) (locked w) (foreign w)
            (console w) (log w ++ [Written p c]), Some tt).

(** [print]: raises when the line holds a symbol that standard output
    cannot encode. *)
Definition print (m : message) : io unit :=
  fun w =>
    if has_symbol m && negb (console w) then (w, None)
    else (emit (Printed m) w, Some tt).

(** [fix_sqlx_syntax]: read, rewrite, write back, report.  The source
    also counts the occurrences of the invocation in the input, into
    [original_count], and never uses the number. *)
Definition fix_sqlx_syntax (file_path : path) : io unit :=
  read_text file_path >>= fun content =>
  write_text file_path (fst (rewrite content)) >>
  print (FixedSyntax file_path) >>
  print (FixedQueries (snd (rewrite content))).

Definition file_path : path :=
  "/home/cklose/ruv-fann-mcp1/swarm/src/agent.rs"%string.

Definition backup_path : path := (file_path ++ ".bak2")%string.

Definition main : io unit :=
  shutil_copy file_path backup_path >>
  print (BackupCreated backup_path) >>
  fix_sqlx_syntax file_path >>
  print NowBuild.

(** The event [e] changes the file at [p]. *)
Definition overwrites (p : path) (e : event) : bool :=
  match e with
  | Written q _ => String.eqb q p
  | Copied _ dst => String.eqb dst p
  | _ => false
  end.

(** For each event of [l] that changes the file at [p], the events that
    came before it. *)
Fixpoint writes_to (p : path) (before l : list event)
  : list (list event) :=
  match l with
  | [] => []
  | e :: l' =>
      if overwrites p e
      then before :: writes_to p (before ++ [e]) l'
      else writes_to p (before ++ [e]) l'
  end.

Definition is_copy (src dst : path) (e : event) : bool :=
  match e with
  | Copied s d => String.eqb s src && String.eqb d dst
  | _ => false
  end.

(** ** Further notions, for the properties beyond the claims *)

(** [original_count = content.count('sqlx::query(')]: computed by the
    source next to the reported count, and printed nowhere. *)
Definition original_count (content : text) : nat :=
  count (str "sqlx::query(") content.

(** How often the character [c] occurs in [s]. *)
Definition occurrences (c : ascii) (s : text) : nat := count_occ ascii_dec s c.

(** The characters step 2 must not touch: all but white space and the
    closing parenthesis. *)
Definition solid (c : ascii) : bool :=
  negb (is_space c) && negb (Ascii.eqb c ")").

(** How many substitutions step 2 performs. *)
Definition collapses (content : text) : nat :=
  subn_aux cleanup_pattern content 0.

(** A buffer as step 1 reads it: stretches of other text, each followed
    by a call site, and a last stretch. *)
Record site : Type := Site {
  site_ws1 : text; site_body : text; site_ws2 : text;
  site_param : text; site_ws3 : text
}.

Definition site_text (c : site) : text :=
  call_site (site_ws1 c) (site_body c) (site_ws2 c) (site_param c)
    (site_ws3 c).

Definition site_bound (c : site) : text :=
  bound_call (site_ws1 c) (site_body c) (site_param c).

Definition site_ok (c : site) : bool :=
  well_formed (site_ws1 c) (site_body c) (site_ws2 c) (site_param c)
    (site_ws3 c).

Fixpoint laid_out (l : list (text * site)) (post : text) : text :=
  match l with
  | [] => post
  | (gap, c) :: l' => gap ++ site_text c ++ laid_out l' post
  end.

Fixpoint laid_out_bound (l : list (text * site)) (post : text) : text :=
  match l with
  | [] => post
  | (gap, c) :: l' => gap ++ site_bound c ++ laid_out_bound l' post
  end.

Fixpoint split_ok (l : list (text * site)) (post : text) : bool :=
  match l with
  | [] => no_match pattern post
  | (gap, c) :: l' =>
      site_ok c
      && no_match_in pattern gap (site_text c ++ laid_out l' post)
      && split_ok l' post
  end.

(** * Proofs *)

(** ** Characters *)

Lemma eqb_neq_false (a b : ascii) : a <> b -> Ascii.eqb a b = false.
Proof. intro H. destruct (Ascii.eqb_spec a b); congruence. Qed.

Lemma space_not_word (c : ascii) : is_space c = true -> is_word c = false.
Proof.
  destruct c as [[] [] [] [] [] [] [] []]; vm_compute; congruence.
Qed.

Lemma class_excludes (p : ascii -> bool) (c x : ascii) :
  p c = false -> p x = true -> Ascii.eqb x c = false.
Proof.
  intros Hc Hx. apply eqb_neq_false. intro E. subst. congruence.
Qed.

(** ** Runs and prefixes *)

Lemma take_drop (p : ascii -> bool) (s : text) :
  take_while p s ++ drop_while p s = s.
Proof.
  induction s as [|c s IH]; simpl; [reflexivity|].
  destruct (p c); simpl; [now rewrite IH | reflexivity].
Qed.

Lemma take_while_all (p : ascii -> bool) (s : text) :
  all_of p (take_while p s) = true.
Proof.
  induction s as [|c s IH]; simpl; [reflexivity|].
  destruct (p c) eqn:E; simpl; [now rewrite E | reflexivity].
Qed.

Lemma drop_while_length (p : ascii -> bool) (s : text) :
  length (drop_while p s) <= length s.
Proof.
  induction s as [|c s IH]; simpl; [lia|]. destruct (p c); simpl; lia.
Qed.

Lemma take_while_firstn (p : ascii -> bool) (s : text) :
  firstn (length s - length (drop_while p s)) s = take_while p s.
Proof.
  induction s as [|c s IH]; simpl; [reflexivity|].
  destruct (p c); simpl.
  - pose proof (drop_while_length p s).
    replace (match length (drop_while p s) with
             | 0 => S (length s)
             | S l => length s - l
             end) with (S (length s - length (drop_while p s)))
      by (destruct (length (drop_while p s)); lia).
    simpl. now rewrite IH.
  - now rewrite Nat.sub_diag.
Qed.

Lemma drop_while_head (p : ascii -> bool) (s : text) (c : ascii) (t : text) :
  drop_while p s = c :: t -> p c = false.
Proof.
  induction s as [|x s IH]; simpl; [discriminate|].
  destruct (p x) eqn:E; [exact IH|]. intros [= <- _]. exact E.
Qed.

(** A run followed by a character outside the class ends right there. *)
Lemma drop_while_run (p : ascii -> bool) (w : text) (c : ascii) (t : text) :
  all_of p w = true -> p c = false -> drop_while p (w ++ c :: t) = c :: t.
Proof.
  induction w as [|x w IH]; simpl; intros Hw Hc.
  - now rewrite Hc.
  - apply andb_prop in Hw as [Hx Hw]. rewrite Hx. now apply IH.
Qed.

Lemma take_while_run (p : ascii -> bool) (w : text) (c : ascii) (t : text) :
  all_of p w = true -> p c = false -> take_while p (w ++ c :: t) = w.
Proof.
  induction w as [|x w IH]; simpl; intros Hw Hc.
  - now rewrite Hc.
  - apply andb_prop in Hw as [Hx Hw]. rewrite Hx. f_equal. now apply IH.
Qed.

Lemma strip_app (pre s : text) : strip pre (pre ++ s) = Some s.
Proof.
  induction pre as [|a pre IH]; simpl; [reflexivity|].
  now rewrite Ascii.eqb_refl.
Qed.

Lemma strip_some (pre s t : text) : strip pre s = Some t -> s = pre ++ t.
Proof.
  revert s. induction pre as [|a pre IH]; simpl; intros s H.
  - now injection H.
  - destruct s as [|b s]; [discriminate|].
    destruct (Ascii.eqb_spec b a); [|discriminate].
    subst. f_equal. now apply IH.
Qed.

Lemma strip_head (a : ascii) (pre : text) (x : ascii) (s : text) :
  x <> a -> strip (a :: pre) (x :: s) = None.
Proof. intro H. simpl. now rewrite (eqb_neq_false H). Qed.

(** ** The matcher on literals and on runs *)

Lemma bt_lits (A : Type) (t s : text) (g : groups)
  (k : text -> groups -> option A) :
  bt (lits t) s g k = match strip t s with
                      | Some s' => k s' g
                      | None => None
                      end.
Proof.
  revert s. induction t as [|a t IH]; intro s.
  - simpl. destruct s; reflexivity.
  - destruct t as [|b t].
    + simpl. destruct s as [|x s]; [reflexivity|].
      destruct (Ascii.eqb x a); reflexivity.
    + change (lits (a :: b :: t)) with (Lit a ;; lits (b :: t)).
      simpl bt at 1. destruct s as [|x s]; [reflexivity|].
      simpl strip. destruct (Ascii.eqb x a); [apply IH | reflexivity].
Qed.

(** When the rest of the pattern cannot begin with a character of the
    class, the greedy run is the only way: backtracking changes nothing. *)
Lemma star_bt_run (A : Type) (p : ascii -> bool) (k : text -> option A) :
  (forall x s, p x = true -> k (x :: s) = None) ->
  forall s, star_bt p s k = k (drop_while p s).
Proof.
  intros Hk s. induction s as [|c s IH]; simpl; [reflexivity|].
  destruct (p c) eqn:E; [|reflexivity].
  rewrite IH. destruct (k (drop_while p s)) eqn:K; [reflexivity|].
  now apply Hk.
Qed.

(** White space, a line feed, white space: any run of white space that
    holds a line feed, whichever line feed the matcher settles on. *)
Lemma star_nl_star (A : Type) (k : text -> option A) :
  (forall x s, is_space x = true -> k (x :: s) = None) ->
  forall s,
    star_bt is_space s
      (fun s1 => match s1 with
                 | x :: s2 =>
                     if Ascii.eqb x nl then star_bt is_space s2 k else None
                 | [] => None
                 end)
    = if has_nl (take_while is_space s)
      then k (drop_while is_space s) else None.
Proof.
  intros Hk s. unfold has_nl.
  induction s as [|c s IH]; [reflexivity|].
  cbn [star_bt take_while drop_while].
  destruct (is_space c) eqn:E; cbn [existsb].
  - rewrite IH. rewrite (@star_bt_run _ is_space k Hk).
    rewrite (Ascii.eqb_sym nl c).
    destruct (existsb (Ascii.eqb nl) (take_while is_space s)).
    + rewrite orb_true_r.
      destruct (k (drop_while is_space s)) eqn:K; [reflexivity|].
      destruct (Ascii.eqb c nl); reflexivity.
    + rewrite orb_false_r. destruct (Ascii.eqb c nl); reflexivity.
  - destruct (Ascii.eqb_spec c nl) as [->|]; [discriminate E|reflexivity].
Qed.

Ltac lit := cbn [str list_ascii_of_string app].
Ltac head_fails Hx :=
  rewrite strip_head; [reflexivity | intros ->; discriminate Hx].

Lemma strip_app_pre (a b s : text) :
  strip (a ++ b) s = match strip a s with
                     | Some s' => strip b s'
                     | None => None
                     end.
Proof.
  revert s. induction a as [|x a IH]; intro s; [reflexivity|].
  destruct s as [|y s]; [reflexivity|]. simpl.
  destruct (Ascii.eqb y x); [apply IH | reflexivity].
Qed.

Lemma strip_one (a : ascii) (s : text) :
  strip [a] s = match s with
                | x :: s' => if Ascii.eqb x a then Some s' else None
                | [] => None
                end.
Proof. destruct s as [|x s]; [reflexivity|]. simpl. now destruct (Ascii.eqb x a). Qed.

Lemma not_dq_eqb (x : ascii) : not_dq x = true -> Ascii.eqb x dq = false.
Proof. unfold not_dq. now destruct (Ascii.eqb x dq). Qed.

Lemma word_not_space (c : ascii) : is_word c = true -> is_space c = false.
Proof.
  intro H. destruct (is_space c) eqn:E; [|reflexivity].
  apply space_not_word in E. congruence.
Qed.

(** ** The two patterns as straight-line scanners *)

Lemma pattern_scan (s : text) : match_at pattern s = scan_call_site s.
Proof.
  unfold match_at, pattern, scan_call_site, plus.
  cbn [bt]. rewrite bt_lits.
  destruct (strip (str "sqlx::query(") s) as [s1|] eqn:E1; [|reflexivity].
  rewrite star_bt_run.
  2:{ intros x t Hx. rewrite bt_lits. lit. head_fails Hx. }
  rewrite bt_lits, strip_app_pre.
  destruct (strip (str "r#") (drop_while is_space s1)) as [s2|]; [|reflexivity].
  rewrite strip_one. destruct s2 as [|x s3]; [reflexivity|].
  destruct (Ascii.eqb x dq); [|reflexivity].
  rewrite star_bt_run.
  2:{ intros y t Hy. now rewrite (not_dq_eqb _ Hy). }
  change (dq :: str "#") with ([dq] ++ ["#"%char]).
  rewrite strip_app_pre, strip_one.
  destruct (drop_while not_dq s3) as [|y s4]; [reflexivity|].
  destruct (Ascii.eqb y dq); [|reflexivity].
  rewrite strip_one. destruct s4 as [|z s5]; [reflexivity|].
  destruct (Ascii.eqb z "#"); [|reflexivity].
  lit. rewrite strip_one. destruct s5 as [|u s6]; [reflexivity|].
  destruct (Ascii.eqb u ","); [|reflexivity].
  rewrite star_bt_run.
  2:{ intros v t Hv. now rewrite (space_not_word _ Hv). }
  generalize (drop_while is_space s6) as s7. intro s7.
  generalize (firstn (length s - length (u :: s6)) s) as g1. intro g1.
  destruct s7 as [|w s8]; [reflexivity|].
  cbn [take_while drop_while]. destruct (is_word w) eqn:W; [|reflexivity].
  cbn [is_nil].
  rewrite star_bt_run.
  2:{ intros v t Hv. cbn [star_bt]. rewrite (word_not_space _ Hv).
      apply class_excludes with (c := ")"%char) in Hv; [|reflexivity].
      now rewrite Hv. }
  rewrite star_bt_run.
  2:{ intros v t Hv.
      apply class_excludes with (c := ")"%char) in Hv; [|reflexivity].
      now rewrite Hv. }
  rewrite strip_one.
  destruct (drop_while is_space (drop_while is_word s8)) as [|v t];
    [reflexivity|].
  destruct (Ascii.eqb v ")"); reflexivity.
Qed.

Lemma cleanup_scan (s : text) : match_at cleanup_pattern s = scan_cleanup s.
Proof.
  unfold match_at, cleanup_pattern, scan_cleanup.
  cbn [bt]. lit. rewrite strip_one.
  destruct s as [|x s1]; [reflexivity|].
  destruct (Ascii.eqb x ")"); [|reflexivity].
  rewrite star_nl_star.
  2:{ intros v t Hv.
      apply class_excludes with (c := ")"%char) in Hv; [|reflexivity].
      now rewrite Hv. }
  destruct (has_nl (take_while is_space s1)); [|reflexivity]. cbn [negb].
  rewrite strip_one.
  destruct (drop_while is_space s1) as [|y s3]; [reflexivity|].
  destruct (Ascii.eqb y ")"); [|reflexivity].
  rewrite star_nl_star.
  2:{ intros v t Hv.
      apply class_excludes with (c := "."%char) in Hv; [|reflexivity].
      now rewrite Hv. }
  destruct (has_nl (take_while is_space s3)); [|reflexivity]. cbn [negb].
  rewrite strip_one.
  destruct (drop_while is_space s3) as [|z s5]; [reflexivity|].
  destruct (Ascii.eqb z "."); [|reflexivity].
  unfold scan_fetch. rewrite bt_lits.
  change ["f"; "e"; "t"; "c"; "h"; "_"]%char with (str "fetch_").
  destruct (strip (str "fetch_") s5) as [t|]; [|reflexivity].
  rewrite !bt_lits.
  change ["o"; "n"; "e"]%char with (str "one").
  change ["a"; "l"; "l"]%char with (str "all").
  destruct (strip (str "one") t) as [u|] eqn:E; [reflexivity|].
  destruct (strip (str "all") t); reflexivity.
Qed.

(** ** The scans of [re.sub] and [str.count], one step at a time *)

Section Scan.
Variables (r : regex) (repl : groups -> text).

Lemma sub_aux_skip (s : text) (k : nat) :
  sub_aux r repl s k = re_sub r repl (skipn k s).
Proof.
  revert k. induction s as [|c s IH]; intro k.
  - now destruct k.
  - destruct k as [|k]; [reflexivity|]. simpl. apply IH.
Qed.

Lemma subn_aux_skip (s : text) (k : nat) :
  subn_aux r s k = subn_aux r (skipn k s) 0.
Proof.
  revert k. induction s as [|c s IH]; intro k.
  - now destruct k.
  - destruct k as [|k]; [reflexivity|]. simpl. apply IH.
Qed.

Lemma re_sub_pass (c : ascii) (s : text) :
  match_at r (c :: s) = None ->
  re_sub r repl (c :: s) = c :: re_sub r repl s.
Proof. intro H. unfold re_sub. simpl. now rewrite H. Qed.

Lemma re_sub_hit (s : text) (n : nat) (g : groups) :
  match_at r s = Some (n, g) -> 0 < n <= length s ->
  re_sub r repl s = repl g ++ re_sub r repl (skipn n s).
Proof.
  intros H Hn. destruct s as [|c s]; [simpl in Hn; lia|].
  unfold re_sub at 1. simpl sub_aux. rewrite H, sub_aux_skip.
  destruct n as [|n]; [lia|]. simpl. now rewrite Nat.sub_0_r.
Qed.

Lemma subn_pass (c : ascii) (s : text) :
  match_at r (c :: s) = None -> subn_aux r (c :: s) 0 = subn_aux r s 0.
Proof. intro H. simpl. now rewrite H. Qed.

Lemma subn_hit (s : text) (n : nat) (g : groups) :
  match_at r s = Some (n, g) -> 0 < n <= length s ->
  subn_aux r s 0 = S (subn_aux r (skipn n s) 0).
Proof.
  intros H Hn. destruct s as [|c s]; [simpl in Hn; lia|].
  simpl subn_aux. rewrite H, subn_aux_skip.
  destruct n as [|n]; [lia|]. simpl. now rewrite Nat.sub_0_r.
Qed.

(** Text in which no match starts is copied as it is. *)
Lemma re_sub_no_match_in (pre rest : text) :
  no_match_in r pre rest = true ->
  re_sub r repl (pre ++ rest) = pre ++ re_sub r repl rest.
Proof.
  induction pre as [|c pre IH]; [reflexivity|].
  cbn [no_match_in].
  destruct (match_at r ((c :: pre) ++ rest)) eqn:E; [discriminate|].
  intro H. simpl app in *. rewrite re_sub_pass by exact E. f_equal. now apply IH.
Qed.

Lemma subn_no_match_in (pre rest : text) :
  no_match_in r pre rest = true ->
  subn_aux r (pre ++ rest) 0 = subn_aux r rest 0.
Proof.
  induction pre as [|c pre IH]; [reflexivity|].
  cbn [no_match_in].
  destruct (match_at r ((c :: pre) ++ rest)) eqn:E; [discriminate|].
  intro H. simpl app in *. rewrite subn_pass by exact E. now apply IH.
Qed.

Lemma re_sub_no_match (s : text) :
  no_match r s = true -> re_sub r repl s = s.
Proof.
  intro H. rewrite <- (app_nil_r s) at 1.
  rewrite re_sub_no_match_in by exact H. apply app_nil_r.
Qed.

Lemma subn_no_match (s : text) :
  no_match r s = true -> subn_aux r s 0 = 0.
Proof.
  intro H. rewrite <- (app_nil_r s).
  now rewrite subn_no_match_in by exact H.
Qed.

End Scan.

Lemma count_aux_skip (needle s : text) (k : nat) :
  count_aux needle s k = count needle (skipn k s).
Proof.
  revert k. induction s as [|c s IH]; intro k.
  - now destruct k.
  - destruct k as [|k]; [reflexivity|]. simpl. apply IH.
Qed.

Lemma count_step (a : ascii) (needle : text) (c : ascii) (s : text) :
  count (a :: needle) (c :: s) =
  if starts_with (a :: needle) (c :: s)
  then S (count (a :: needle) (skipn (length needle) s))
  else count (a :: needle) s.
Proof.
  unfold count at 1. cbn [count_aux].
  destruct (starts_with (a :: needle) (c :: s)); [|reflexivity].
  rewrite count_aux_skip.
  now replace (length (a :: needle) - 1) with (length needle) by (simpl; lia).
Qed.

Lemma starts_with_app (needle s : text) : starts_with needle (needle ++ s) = true.
Proof.
  induction needle as [|a needle IH]; [reflexivity|].
  simpl. now rewrite Ascii.eqb_refl.
Qed.

Lemma starts_with_prefix (needle s : text) :
  starts_with needle s = true -> s = needle ++ skipn (length needle) s.
Proof.
  revert s. induction needle as [|a needle IH]; intro s; [reflexivity|].
  destruct s as [|c s]; [discriminate|]. simpl.
  destruct (Ascii.eqb_spec a c); [|discriminate].
  intro H. subst. f_equal. now apply IH.
Qed.

(** A character foreign to the needle fences occurrences off: none
    reaches across it. *)
Lemma starts_with_sep (needle a : text) (c : ascii) (b : text) :
  ~ In c needle ->
  starts_with needle (a ++ c :: b) = starts_with needle a.
Proof.
  revert a. induction needle as [|x needle IH]; intros a Hc; [reflexivity|].
  destruct a as [|y a]; simpl.
  - rewrite eqb_neq_false; [reflexivity|]. intro E. apply Hc. now left.
  - rewrite IH; [reflexivity|]. intro E. apply Hc. now right.
Qed.

Lemma starts_with_length (needle s : text) :
  starts_with needle s = true -> length needle <= length s.
Proof.
  revert s. induction needle as [|x needle IH]; intro s; [simpl; lia|].
  destruct s as [|y s]; [discriminate|]. simpl.
  intro H. apply andb_prop in H as [_ H]. apply IH in H. lia.
Qed.

Lemma count_sep (x : ascii) (needle a : text) (c : ascii) (b : text) :
  ~ In c (x :: needle) ->
  count (x :: needle) (a ++ c :: b)
  = count (x :: needle) a + count (x :: needle) b.
Proof.
  intro Hc. remember (length a) as n eqn:Hn. revert a Hn.
  induction n as [n IH] using lt_wf_ind. intros a Hn.
  destruct a as [|y a].
  - simpl app. rewrite count_step.
    replace (starts_with (x :: needle) (c :: b)) with false; [reflexivity|].
    symmetry. simpl. rewrite eqb_neq_false; [reflexivity|].
    intro E. apply Hc. now left.
  - simpl app. rewrite !count_step.
    change (y :: a ++ c :: b) with ((y :: a) ++ c :: b).
    rewrite starts_with_sep by exact Hc.
    destruct (starts_with (x :: needle) (y :: a)) eqn:E.
    + apply starts_with_length in E. simpl in E.
      rewrite skipn_app.
      replace (length needle - length a) with 0 by lia. simpl skipn at 2.
      rewrite (IH (length (skipn (length needle) a))); [lia| |reflexivity].
      rewrite length_skipn. simpl in Hn. lia.
    + apply (IH (length a)); [simpl in Hn; lia | reflexivity].
Qed.

Lemma count_other (x : ascii) (needle : text) (c : ascii) (s : text) :
  c <> x -> count (x :: needle) (c :: s) = count (x :: needle) s.
Proof.
  intro H. rewrite count_step. simpl.
  rewrite (eqb_neq_false (not_eq_sym H)). reflexivity.
Qed.

Lemma count_here (x : ascii) (needle s : text) :
  count (x :: needle) ((x :: needle) ++ s) = S (count (x :: needle) s).
Proof.
  simpl app. rewrite count_step.
  change (x :: needle ++ s) with ((x :: needle) ++ s).
  rewrite starts_with_app. f_equal. f_equal.
  rewrite skipn_app, Nat.sub_diag, skipn_all. reflexivity.
Qed.

(** ** What a match looks like, and what looks like a match *)

Lemma firstn_app_exact (a b : text) :
  firstn (length (a ++ b) - length b) (a ++ b) = a.
Proof.
  rewrite length_app, Nat.add_sub, firstn_app, Nat.sub_diag, firstn_all.
  simpl. apply app_nil_r.
Qed.

Lemma firstn_cut (s a b : text) :
  s = a ++ b -> firstn (length s - length b) s = a.
Proof. intros ->. apply firstn_app_exact. Qed.

Lemma drop_while_app_all (p : ascii -> bool) (w t : text) :
  all_of p w = true -> drop_while p (w ++ t) = drop_while p t.
Proof.
  induction w as [|x w IH]; simpl; [reflexivity|].
  intro H. apply andb_prop in H as [Hx Hw]. rewrite Hx. now apply IH.
Qed.

Lemma take_while_app_all (p : ascii -> bool) (w t : text) :
  all_of p w = true -> take_while p (w ++ t) = w ++ take_while p t.
Proof.
  induction w as [|x w IH]; simpl; [reflexivity|].
  intro H. apply andb_prop in H as [Hx Hw]. rewrite Hx. f_equal. now apply IH.
Qed.

Lemma all_of_app (p : ascii -> bool) (a b : text) :
  all_of p (a ++ b) = all_of p a && all_of p b.
Proof. apply forallb_app. Qed.

(** White space and then a closing parenthesis hold no word character at
    the front. *)
Lemma word_run_stops (ws rest : text) :
  all_of is_space ws = true ->
  drop_while is_word (ws ++ ")"%char :: rest) = ws ++ ")"%char :: rest
  /\ take_while is_word (ws ++ ")"%char :: rest) = [].
Proof.
  destruct ws as [|c ws]; simpl; [now split|].
  intro H. apply andb_prop in H as [Hc _].
  now rewrite (space_not_word _ Hc).
Qed.

Lemma pattern_site (ws1 body ws2 param ws3 rest : text) :
  well_formed ws1 body ws2 param ws3 = true ->
  match_at pattern (call_site ws1 body ws2 param ws3 ++ rest)
  = Some (length (call_site ws1 body ws2 param ws3),
          [(2, param); (1, query_part ws1 body)]).
Proof.
  unfold well_formed. intro H.
  repeat (apply andb_prop in H as [H ?]).
  destruct param as [|c param]; [discriminate|].
  match goal with Hp : all_of is_word (c :: param) = true |- _ =>
    pose proof Hp as Hw; simpl in Hp; apply andb_prop in Hp as [Hc _] end.
  set (t8 := ws3 ++ ")"%char :: rest).
  set (t6 := ws2 ++ (c :: param) ++ t8).
  set (t3 := body ++ dq :: "#"%char :: ","%char :: t6).
  set (t1 := ws1 ++ "r"%char :: "#"%char :: dq :: t3).
  assert (ES : call_site ws1 body ws2 (c :: param) ws3 ++ rest
               = str "sqlx::query(" ++ t1).
  { unfold call_site, query_part, t1, t3, t6, t8.
    now rewrite <- !app_assoc. }
  assert (EQ : call_site ws1 body ws2 (c :: param) ws3 ++ rest
               = query_part ws1 body ++ ","%char :: t6).
  { unfold call_site, t6, t8. now rewrite <- !app_assoc. }
  rewrite pattern_scan.
  remember (call_site ws1 body ws2 (c :: param) ws3 ++ rest) as S eqn:HS.
  assert (E1 : strip (str "sqlx::query(") S = Some t1)
    by (rewrite ES; apply strip_app).
  unfold scan_call_site. rewrite E1.
  unfold t1 at 1. rewrite drop_while_run by (assumption || reflexivity).
  change ("r"%char :: "#"%char :: dq :: t3) with ((str "r#" ++ [dq]) ++ t3).
  rewrite strip_app.
  unfold t3 at 1. rewrite drop_while_run;
    [|assumption|reflexivity].
  change (dq :: "#"%char :: ","%char :: t6)
    with ((dq :: str "#") ++ ","%char :: t6).
  rewrite strip_app. change (","%char :: t6) with (str "," ++ t6) at 1.
  rewrite strip_app.
  unfold t6 at 1 2 3 4 5. cbn [app].
  rewrite !(drop_while_run is_space ws2 c)
    by (assumption || now apply word_not_space).
  change (c :: param ++ t8) with ((c :: param) ++ t8).
  rewrite take_while_app_all, drop_while_app_all by assumption.
  unfold t8 at 1 2 3 4.
  destruct (word_run_stops ws3 rest) as [-> ->]; [assumption|].
  rewrite app_nil_r. cbn [is_nil app].
  rewrite drop_while_run by (assumption || reflexivity).
  change (")"%char :: rest) with (str ")" ++ rest). rewrite strip_app.
  f_equal. f_equal.
  - rewrite HS, length_app. lia.
  - f_equal; f_equal.
    + change (str ")" ++ rest) with (")"%char :: rest). fold t8.
      change (c :: param ++ t8) with ((c :: param) ++ t8).
      apply firstn_app_exact.
    + f_equal. apply firstn_cut, EQ.
Qed.

Lemma pattern_shape (s : text) (n : nat) (g : groups) :
  match_at pattern s = Some (n, g) ->
  exists ws1 body ws2 param ws3 rest,
    s = call_site ws1 body ws2 param ws3 ++ rest
    /\ well_formed ws1 body ws2 param ws3 = true
    /\ n = length (call_site ws1 body ws2 param ws3)
    /\ g = [(2, param); (1, query_part ws1 body)].
Proof.
  rewrite pattern_scan. unfold scan_call_site.
  destruct (strip (str "sqlx::query(") s) as [s1|] eqn:E1; [|discriminate].
  destruct (strip (str "r#" ++ [dq]) (drop_while is_space s1))
    as [s3|] eqn:E3; [|discriminate].
  destruct (strip (dq :: str "#") (drop_while not_dq s3))
    as [s5|] eqn:E5; [|discriminate].
  destruct (strip (str ",") s5) as [s6|] eqn:E6; [|discriminate].
  set (s7 := drop_while is_space s6).
  set (s8 := drop_while is_word s7).
  destruct (is_nil (take_while is_word s7)) eqn:N; [discriminate|].
  destruct (strip (str ")") (drop_while is_space s8))
    as [s10|] eqn:E10; [|discriminate].
  intros [= <- <-].
  apply strip_some in E1, E3, E5, E6, E10.
  exists (take_while is_space s1), (take_while not_dq s3),
    (take_while is_space s6), (take_while is_word s7),
    (take_while is_space s8), s10.
  assert (Eq : s = query_part (take_while is_space s1)
                   (take_while not_dq s3) ++ s5).
  { unfold query_part. rewrite <- !app_assoc.
    rewrite E1 at 1. f_equal.
    rewrite <- (take_drop is_space s1) at 1. f_equal. rewrite E3.
    rewrite <- !app_assoc. do 2 f_equal.
    rewrite <- (take_drop not_dq s3) at 1. f_equal. rewrite E5.
    reflexivity. }
  assert (Es : s = call_site (take_while is_space s1) (take_while not_dq s3)
                 (take_while is_space s6) (take_while is_word s7)
                 (take_while is_space s8) ++ s10).
  { unfold call_site. rewrite <- !app_assoc. rewrite Eq at 1. f_equal.
    rewrite E6. f_equal.
    rewrite <- (take_drop is_space s6) at 1. f_equal. fold s7.
    rewrite <- (take_drop is_word s7) at 1. f_equal. fold s8.
    rewrite <- (take_drop is_space s8) at 1. f_equal. exact E10. }
  split; [exact Es|]. split; [|split].
  - unfold well_formed. rewrite !take_while_all, N. reflexivity.
  - rewrite Es at 1. rewrite length_app. lia.
  - f_equal; [f_equal; apply take_while_firstn|]. f_equal. f_equal.
    apply firstn_cut, Eq.
Qed.

Lemma scan_fetch_some (s t : text) :
  scan_fetch s = Some t ->
  exists v, is_variant v = true /\ s = str "fetch_" ++ v ++ t.
Proof.
  unfold scan_fetch.
  destruct (strip (str "fetch_") s) as [u|] eqn:E; [|discriminate].
  apply strip_some in E. subst s.
  destruct (strip (str "one") u) as [u1|] eqn:E1.
  - intros [= <-]. apply strip_some in E1. exists (str "one").
    split; [reflexivity|]. now rewrite E1.
  - intro E2. apply strip_some in E2. exists (str "all").
    split; [reflexivity|]. now rewrite E2.
Qed.

Lemma is_variant_cases (v : text) :
  is_variant v = true -> v = str "one" \/ v = str "all".
Proof.
  unfold is_variant.
  destruct (list_eq_dec ascii_dec v (str "one")); [now left|].
  destruct (list_eq_dec ascii_dec v (str "all")); [now right|discriminate].
Qed.

Lemma scan_fetch_variant (v t : text) :
  is_variant v = true -> scan_fetch (str "fetch_" ++ v ++ t) = Some t.
Proof.
  intro H. unfold scan_fetch. rewrite strip_app.
  destruct (is_variant_cases _ H) as [-> | ->].
  - now rewrite strip_app.
  - rewrite strip_app. reflexivity.
Qed.

Lemma own_lines_inv (w : text) :
  own_lines w = true -> all_of is_space w = true /\ has_nl w = true.
Proof. unfold own_lines. intro H. now apply andb_prop in H. Qed.

Lemma cleanup_site (w1 w2 v rest : text) :
  own_lines w1 = true -> own_lines w2 = true -> is_variant v = true ->
  match_at cleanup_pattern (stray_site w1 w2 v ++ rest)
  = Some (length (stray_site w1 w2 v), [(1, str "fetch_" ++ v)]).
Proof.
  intros H1 H2 Hv.
  apply own_lines_inv in H1 as [A1 N1], H2 as [A2 N2].
  set (t5 := str "fetch_" ++ v ++ rest).
  set (t3 := w2 ++ "."%char :: t5).
  set (t1 := w1 ++ ")"%char :: t3).
  remember (stray_site w1 w2 v ++ rest) as S eqn:HS.
  assert (ES : S = str ")" ++ t1).
  { rewrite HS. unfold stray_site, t1, t3, t5. now rewrite <- !app_assoc. }
  rewrite cleanup_scan. unfold scan_cleanup.
  rewrite ES at 1. rewrite strip_app.
  unfold t1 at 1 2.
  rewrite take_while_run, drop_while_run by (assumption || reflexivity).
  rewrite N1. cbn [negb].
  change (")"%char :: t3) with (str ")" ++ t3). rewrite strip_app.
  unfold t3 at 1 2.
  rewrite take_while_run, drop_while_run by (assumption || reflexivity).
  rewrite N2. cbn [negb].
  change ("."%char :: t5) with (str "." ++ t5). rewrite strip_app.
  unfold t5 at 1. rewrite scan_fetch_variant by assumption.
  f_equal. f_equal.
  - rewrite HS, length_app. lia.
  - do 2 f_equal. apply firstn_cut. unfold t5. apply app_assoc.
Qed.

Lemma cleanup_shape (s : text) (n : nat) (g : groups) :
  match_at cleanup_pattern s = Some (n, g) ->
  exists w1 w2 v rest,
    s = stray_site w1 w2 v ++ rest
    /\ own_lines w1 = true /\ own_lines w2 = true /\ is_variant v = true
    /\ n = length (stray_site w1 w2 v)
    /\ g = [(1, str "fetch_" ++ v)].
Proof.
  rewrite cleanup_scan. unfold scan_cleanup.
  destruct (strip (str ")") s) as [s1|] eqn:E1; [|discriminate].
  destruct (has_nl (take_while is_space s1)) eqn:N1; [|discriminate].
  cbn [negb].
  destruct (strip (str ")") (drop_while is_space s1))
    as [s3|] eqn:E3; [|discriminate].
  destruct (has_nl (take_while is_space s3)) eqn:N3; [|discriminate].
  cbn [negb].
  destruct (strip (str ".") (drop_while is_space s3))
    as [s5|] eqn:E5; [|discriminate].
  destruct (scan_fetch s5) as [s6|] eqn:E6; [|discriminate].
  intros [= <- <-].
  apply strip_some in E1, E3, E5.
  apply scan_fetch_some in E6 as (v & Hv & E6).
  exists (take_while is_space s1), (take_while is_space s3), v, s6.
  assert (Es : s = stray_site (take_while is_space s1)
                     (take_while is_space s3) v ++ s6).
  { unfold stray_site. rewrite <- !app_assoc. rewrite E1 at 1. f_equal.
    rewrite <- (take_drop is_space s1) at 1. f_equal. rewrite E3. f_equal.
    rewrite <- (take_drop is_space s3) at 1. f_equal. rewrite E5.
    change (str ".fetch_") with (str "." ++ str "fetch_").
    rewrite <- !app_assoc. f_equal. exact E6. }
  split; [exact Es|].
  unfold own_lines. rewrite !take_while_all, N1, N3.
  repeat split; try assumption.
  - rewrite Es at 1. rewrite length_app. lia.
  - do 2 f_equal. apply firstn_cut. rewrite E6. apply app_assoc.
Qed.

(** No match is empty, and none begins where the pattern's first
    character is not. *)
Lemma pattern_span (s : text) (n : nat) (g : groups) :
  match_at pattern s = Some (n, g) -> 0 < n <= length s.
Proof.
  intro H. apply pattern_shape in H
    as (ws1 & body & ws2 & p & ws3 & rest & -> & _ & -> & _).
  rewrite length_app. unfold call_site, query_part.
  rewrite !length_app. simpl. lia.
Qed.

Lemma cleanup_span (s : text) (n : nat) (g : groups) :
  match_at cleanup_pattern s = Some (n, g) -> 0 < n <= length s.
Proof.
  intro H. apply cleanup_shape in H
    as (w1 & w2 & v & rest & -> & _ & _ & _ & -> & _).
  rewrite length_app. unfold stray_site.
  rewrite !length_app. simpl. lia.
Qed.

Lemma pattern_head (c : ascii) (s : text) :
  c <> "s"%char -> match_at pattern (c :: s) = None.
Proof.
  intro H. rewrite pattern_scan. unfold scan_call_site. lit.
  now rewrite strip_head.
Qed.

Lemma cleanup_head (c : ascii) (s : text) :
  c <> ")"%char -> match_at cleanup_pattern (c :: s) = None.
Proof.
  intro H. rewrite cleanup_scan. unfold scan_cleanup. lit.
  now rewrite strip_head.
Qed.

(** ** Counting the marker across a substitution pass

    Both passes share the argument: a match never begins at a character of
    the marker, the replacement does not begin with one either, and both the
    matched span and its replacement end the count they carry before the
    text that follows.  [delta] is what one substitution adds. *)

Lemma marker_here (s : text) :
  count bind_marker (bind_marker ++ s) = S (count bind_marker s).
Proof. exact (count_here "." (str "bind(") s). Qed.

Lemma marker_step (c : ascii) (s : text) :
  count bind_marker (c :: s) =
  if starts_with bind_marker (c :: s)
  then S (count bind_marker (skipn 5 s))
  else count bind_marker s.
Proof. exact (count_step "." (str "bind(") c s). Qed.

Lemma marker_sep (a : text) (c : ascii) (b : text) :
  ~ In c bind_marker ->
  count bind_marker (a ++ c :: b) = count bind_marker a + count bind_marker b.
Proof. exact (@count_sep "." (str "bind(") a c b). Qed.

Section CountThroughSub.
Variables (r : regex) (repl : groups -> text) (delta : nat).

Hypothesis hit_head :
  forall c s, In c bind_marker -> match_at r (c :: s) = None.

Hypothesis hit_shape :
  forall s n g, match_at r s = Some (n, g) ->
    0 < n <= length s
    /\ (exists c t, repl g = c :: t /\ ~ In c bind_marker)
    /\ exists d,
         (forall x, count bind_marker (firstn n s ++ x)
                    = d + count bind_marker x)
         /\ (forall x, count bind_marker (repl g ++ x)
                       = d + delta + count bind_marker x).

Lemma starts_with_through (needle s : text) :
  incl needle bind_marker ->
  starts_with needle (re_sub r repl s) = starts_with needle s.
Proof.
  revert s. induction needle as [|a needle IH]; intros s Hin; [reflexivity|].
  destruct s as [|c s]; [reflexivity|].
  destruct (match_at r (c :: s)) as [[n g]|] eqn:E.
  - destruct (hit_shape _ E) as (Hn & (c0 & t & Hr & Hc0) & _).
    rewrite (@re_sub_hit r repl _ _ _ E Hn), Hr. cbn [app starts_with].
    rewrite (@eqb_neq_false a c0).
    2:{ intros ->. apply Hc0, Hin. now left. }
    rewrite (@eqb_neq_false a c); [reflexivity|].
    intros ->. rewrite hit_head in E; [discriminate|]. apply Hin. now left.
  - rewrite re_sub_pass by exact E. cbn [starts_with].
    rewrite IH; [reflexivity|]. intros x Hx. apply Hin. now right.
Qed.

Lemma sub_keeps_marker (s : text) :
  re_sub r repl (bind_marker ++ s) = bind_marker ++ re_sub r repl s.
Proof.
  apply re_sub_no_match_in.
  unfold bind_marker. lit. cbn [no_match_in app].
  rewrite !hit_head; [reflexivity| | | | | |]; unfold bind_marker; lit;
    simpl; tauto.
Qed.

Lemma subn_keeps_marker (s : text) :
  subn_aux r (bind_marker ++ s) 0 = subn_aux r s 0.
Proof.
  apply subn_no_match_in.
  unfold bind_marker. lit. cbn [no_match_in app].
  rewrite !hit_head; [reflexivity| | | | | |]; unfold bind_marker; lit;
    simpl; tauto.
Qed.

Theorem count_through_sub (s : text) :
  count bind_marker (re_sub r repl s)
  = delta * subn_aux r s 0 + count bind_marker s.
Proof.
  remember (length s) as m eqn:Hm. revert s Hm.
  induction m as [m IH] using lt_wf_ind. intros s Hm.
  destruct s as [|c s]; [cbn; lia|].
  destruct (match_at r (c :: s)) as [[n g]|] eqn:E.
  - destruct (hit_shape _ E) as (Hn & _ & d & Hspan & Hrepl).
    rewrite (@re_sub_hit r repl _ _ _ E Hn), (@subn_hit r _ _ _ E Hn), Hrepl.
    rewrite <- (firstn_skipn n (c :: s)) at 3. rewrite Hspan.
    rewrite (IH (length (skipn n (c :: s)))); [lia| |reflexivity].
    rewrite length_skipn. lia.
  - destruct (starts_with bind_marker (c :: s)) eqn:W.
    + apply starts_with_prefix in W. rewrite W.
      set (t := skipn (length bind_marker) (c :: s)).
      rewrite sub_keeps_marker, subn_keeps_marker.
      rewrite !marker_here.
      rewrite (IH (length t)); [lia| |reflexivity].
      unfold t. rewrite length_skipn. subst m.
      change (length bind_marker) with 6. cbn [length]. lia.
    + rewrite re_sub_pass, subn_pass by exact E.
      rewrite !marker_step, W.
      change (starts_with bind_marker (c :: re_sub r repl s))
        with (Ascii.eqb "." c && starts_with (str "bind(") (re_sub r repl s)).
      rewrite starts_with_through.
      2:{ intros x Hx. now right. }
      change (Ascii.eqb "." c && starts_with (str "bind(") s)
        with (starts_with bind_marker (c :: s)).
      rewrite W. apply (IH (length s)); [simpl in Hm; lia | reflexivity].
Qed.

End CountThroughSub.

Lemma marker_other (c : ascii) (s : text) :
  c <> "."%char -> count bind_marker (c :: s) = count bind_marker s.
Proof. exact (@count_other "." (str "bind(") c s). Qed.

Lemma marker_skip (w x : text) :
  ~ In "."%char w -> count bind_marker (w ++ x) = count bind_marker x.
Proof.
  induction w as [|c w IH]; intro H; [reflexivity|].
  simpl app. rewrite marker_other.
  - apply IH. intro E. apply H. now right.
  - intro E. apply H. now left.
Qed.

Lemma marker_dot (c : ascii) (s : text) :
  c <> "b"%char ->
  count bind_marker ("."%char :: c :: s) = count bind_marker (c :: s).
Proof.
  intro H. rewrite marker_step. cbn [starts_with bind_marker str
    list_ascii_of_string]. rewrite Ascii.eqb_refl.
  rewrite (@eqb_neq_false "b" c); [reflexivity|]. now apply not_eq_sym.
Qed.

Lemma all_of_in (p : ascii -> bool) (s : text) (c : ascii) :
  all_of p s = true -> In c s -> p c = true.
Proof. intros H. now apply forallb_forall. Qed.

Lemma no_dot_in_class (p : ascii -> bool) (s : text) :
  p "."%char = false -> all_of p s = true -> ~ In "."%char s.
Proof.
  intros Hp Hs Hin. apply (@all_of_in p s "."%char Hs) in Hin. congruence.
Qed.

Lemma well_formed_inv (ws1 body ws2 param ws3 : text) :
  well_formed ws1 body ws2 param ws3 = true ->
  all_of is_space ws1 = true /\ all_of not_dq body = true
  /\ all_of is_space ws2 = true /\ all_of is_word param = true
  /\ param <> [] /\ all_of is_space ws3 = true.
Proof.
  unfold well_formed. intro H. repeat (apply andb_prop in H as [H ?]).
  repeat split; try assumption. intros ->. discriminate.
Qed.

Lemma replace_query_groups (ws1 body param : text) :
  replace_query [(2, param); (1, query_part ws1 body)]
  = bound_call ws1 body param.
Proof. reflexivity. Qed.

Lemma cleanup_template_groups (v : text) :
  cleanup_template [(1, str "fetch_" ++ v)] = collapsed v.
Proof. reflexivity. Qed.

Lemma no_dot_app (a b : text) :
  ~ In "."%char a -> ~ In "."%char b -> ~ In "."%char (a ++ b).
Proof. intros Ha Hb H. apply in_app_or in H. tauto. Qed.

Lemma call_site_count (ws1 body ws2 param ws3 x : text) :
  well_formed ws1 body ws2 param ws3 = true ->
  count bind_marker (call_site ws1 body ws2 param ws3 ++ x)
  = count bind_marker (query_part ws1 body) + count bind_marker x.
Proof.
  intro H. apply well_formed_inv in H as (_ & _ & H2 & Hp & _ & H3).
  unfold call_site. rewrite <- !app_assoc.
  change (str "," ++ ws2 ++ param ++ ws3 ++ str ")" ++ x)
    with (","%char :: ws2 ++ param ++ ws3 ++ str ")" ++ x).
  rewrite marker_sep by (vm_compute; intuition discriminate).
  f_equal. rewrite !app_assoc. apply marker_skip.
  repeat apply no_dot_app.
  - now apply (no_dot_in_class is_space).
  - now apply (no_dot_in_class is_word).
  - now apply (no_dot_in_class is_space).
  - vm_compute. intuition discriminate.
Qed.

Lemma bound_call_count (ws1 body param x : text) :
  all_of is_word param = true ->
  count bind_marker (bound_call ws1 body param ++ x)
  = count bind_marker (query_part ws1 body) + 1 + count bind_marker x.
Proof.
  intro Hp. unfold bound_call. rewrite <- !app_assoc.
  change (str ")" ++ [nl] ++ indent ++ str ".bind(" ++ param ++ str ")" ++ x)
    with (")"%char :: (nl :: indent) ++ bind_marker
            ++ param ++ str ")" ++ x).
  rewrite marker_sep by (vm_compute; intuition discriminate).
  rewrite <- Nat.add_assoc. f_equal.
  rewrite marker_skip by (vm_compute; intuition discriminate).
  rewrite marker_here. change (1 + count bind_marker x)
    with (S (count bind_marker x)). f_equal.
  rewrite app_assoc. apply marker_skip. apply no_dot_app.
  - now apply (no_dot_in_class is_word).
  - vm_compute. intuition discriminate.
Qed.

Lemma fetch_count (v x : text) :
  is_variant v = true ->
  count bind_marker (str ".fetch_" ++ v ++ x) = count bind_marker x.
Proof.
  intro H. change (str ".fetch_" ++ v ++ x)
    with ("."%char :: "f"%char :: str "etch_" ++ v ++ x).
  rewrite marker_dot by discriminate.
  change ("f"%char :: str "etch_" ++ v ++ x) with (str "fetch_" ++ v ++ x).
  rewrite app_assoc. apply marker_skip.
  destruct (is_variant_cases _ H) as [-> | ->];
    vm_compute; intuition discriminate.
Qed.

Lemma stray_site_count (w1 w2 v x : text) :
  own_lines w1 = true -> own_lines w2 = true -> is_variant v = true ->
  count bind_marker (stray_site w1 w2 v ++ x) = count bind_marker x.
Proof.
  intros H1 H2 Hv.
  apply own_lines_inv in H1 as [A1 _], H2 as [A2 _].
  unfold stray_site. rewrite <- !app_assoc.
  rewrite (app_assoc (str ")")), (app_assoc (str ")" ++ w1)),
    (app_assoc ((str ")" ++ w1) ++ str ")")).
  rewrite marker_skip.
  - now apply fetch_count.
  - repeat apply no_dot_app;
      try (now apply (no_dot_in_class is_space));
      vm_compute; intuition discriminate.
Qed.

Lemma collapsed_count (v x : text) :
  is_variant v = true ->
  count bind_marker (collapsed v ++ x) = count bind_marker x.
Proof.
  intro Hv. unfold collapsed. rewrite <- !app_assoc.
  rewrite (app_assoc (str ")")), (app_assoc (str ")" ++ [nl])).
  rewrite marker_skip by (vm_compute; intuition discriminate).
  now apply fetch_count.
Qed.

Lemma marker_not_s (c : ascii) : In c bind_marker -> c <> "s"%char.
Proof. vm_compute. intuition (subst; discriminate). Qed.

Lemma marker_not_close (c : ascii) : In c bind_marker -> c <> ")"%char.
Proof. vm_compute. intuition (subst; discriminate). Qed.

(** Step 1 adds one marker per call site it rewrites and loses none. *)
Lemma step1_count (s : text) :
  count bind_marker (step1 s) = rewritten_sites s + count bind_marker s.
Proof.
  unfold step1, rewritten_sites.
  rewrite (@count_through_sub pattern replace_query 1); [lia| |].
  - intros c t Hc. apply pattern_head. now apply marker_not_s.
  - intros t n g E. split; [exact (pattern_span _ E)|].
    apply pattern_shape in E
      as (ws1 & body & ws2 & p & ws3 & rest & -> & Hwf & -> & ->).
    rewrite replace_query_groups. split.
    + exists "s"%char. eexists. split; [reflexivity|].
      vm_compute. intuition discriminate.
    + exists (count bind_marker (query_part ws1 body)).
      rewrite firstn_app, Nat.sub_diag, firstn_all. simpl firstn.
      rewrite app_nil_r. split; intro x.
      * now apply call_site_count.
      * apply bound_call_count.
        now apply well_formed_inv in Hwf as (_ & _ & _ & Hp & _).
Qed.

(** Step 2 neither adds nor removes a marker. *)
Lemma step2_count (s : text) :
  count bind_marker (step2 s) = count bind_marker s.
Proof.
  unfold step2.
  rewrite (@count_through_sub cleanup_pattern cleanup_template 0);
    [lia| |].
  - intros c t Hc. apply cleanup_head. now apply marker_not_close.
  - intros t n g E. split; [exact (cleanup_span _ E)|].
    apply cleanup_shape in E
      as (w1 & w2 & v & rest & -> & H1 & H2 & Hv & -> & ->).
    rewrite cleanup_template_groups. split.
    + exists ")"%char. eexists. split; [reflexivity|].
      vm_compute. intuition discriminate.
    + exists 0.
      rewrite firstn_app, Nat.sub_diag, firstn_all. simpl firstn.
      rewrite app_nil_r. split; intro x.
      * now apply stray_site_count.
      * now apply collapsed_count.
Qed.

(** ** Substitution over a concatenation *)

Lemma app_prefix_length (a b c d : text) :
  a ++ b = c ++ d -> length c <= length a -> exists u, a = c ++ u.
Proof.
  revert a. induction c as [|x c IH]; intros a E L.
  - now exists a.
  - destruct a as [|y a]; [simpl in L; lia|].
    simpl in E. injection E as -> E. simpl in L.
    destruct (IH a E) as [u ->]; [lia|]. now exists u.
Qed.

(** Text that ends before a character foreign to [s] holds all of [s]. *)
Lemma prefix_before_foreign (a : text) (c : ascii) (t s rest : text) :
  a ++ c :: t = s ++ rest -> ~ In c s -> exists u, a = s ++ u.
Proof.
  revert a. induction s as [|x s IH]; intros a E H.
  - now exists a.
  - destruct a as [|y a]; simpl in E.
    + injection E as -> _. exfalso. apply H. now left.
    + injection E as -> E. destruct (IH a E) as [u ->].
      * intro F. apply H. now right.
      * now exists u.
Qed.

Section Split.
Variables (r : regex) (repl : groups -> text).

Hypothesis span :
  forall s n g, match_at r s = Some (n, g) -> 0 < n <= length s.
Hypothesis extend :
  forall s t x, match_at r s = Some x -> match_at r (s ++ t) = Some x.
Hypothesis restrict :
  forall s t n g, match_at r (s ++ t) = Some (n, g) -> n <= length s ->
    match_at r s = Some (n, g).

Lemma contained_tail (c : ascii) (pre rest : text) :
  contained r (c :: pre) rest = true -> contained r pre rest = true.
Proof.
  cbn [contained]. destruct (match_at r ((c :: pre) ++ rest)) as [[n g]|].
  - intro H. now apply andb_prop in H.
  - auto.
Qed.

Lemma contained_skipn (k : nat) (pre rest : text) :
  contained r pre rest = true -> contained r (skipn k pre) rest = true.
Proof.
  revert pre. induction k as [|k IH]; intros pre H; [exact H|].
  destruct pre as [|c pre]; [exact H|].
  simpl. apply IH. now apply contained_tail in H.
Qed.

Lemma contained_of_bound (pre rest : text) :
  (forall a1 a2 n g, pre = a1 ++ a2 -> a2 <> [] ->
     match_at r (a2 ++ rest) = Some (n, g) -> n <= length a2) ->
  contained r pre rest = true.
Proof.
  induction pre as [|c pre IH]; intro H; [reflexivity|].
  cbn [contained].
  assert (T : contained r pre rest = true).
  { apply IH. intros a1 a2 n g E. apply (H (c :: a1)). now rewrite E. }
  destruct (match_at r ((c :: pre) ++ rest)) as [[n g]|] eqn:E; [|exact T].
  rewrite T, andb_true_r. apply Nat.leb_le.
  apply (H [] (c :: pre) n g eq_refl); [discriminate | exact E].
Qed.

Theorem re_sub_contained (pre rest : text) :
  contained r pre rest = true ->
  re_sub r repl (pre ++ rest) = re_sub r repl pre ++ re_sub r repl rest.
Proof.
  remember (length pre) as m eqn:Hm. revert pre Hm.
  induction m as [m IH] using lt_wf_ind. intros pre Hm C.
  destruct pre as [|c pre]; [reflexivity|].
  pose proof C as C0. cbn [contained] in C.
  destruct (match_at r ((c :: pre) ++ rest)) as [[n g]|] eqn:E.
  - apply andb_prop in C as [L C]. apply Nat.leb_le in L.
    pose proof (restrict _ _ E L) as E'.
    pose proof (span _ E') as Hn. pose proof (span _ E) as Hn2.
    rewrite (@re_sub_hit r repl _ _ _ E Hn2).
    rewrite (@re_sub_hit r repl _ _ _ E' Hn).
    rewrite <- app_assoc. f_equal.
    rewrite skipn_app. replace (n - length (c :: pre)) with 0 by lia.
    simpl (skipn 0 rest).
    apply (IH (length (skipn n (c :: pre)))); [|reflexivity|].
    + rewrite length_skipn. lia.
    + now apply contained_skipn.
  - assert (E' : match_at r (c :: pre) = None).
    { destruct (match_at r (c :: pre)) as [x|] eqn:F; [|reflexivity].
      apply extend with (t := rest) in F. congruence. }
    simpl app in *. rewrite !re_sub_pass by assumption.
    simpl. f_equal. apply (IH (length pre)); [simpl in Hm; lia|reflexivity|].
    exact C.
Qed.

End Split.

Lemma pattern_extend (s t : text) (x : nat * groups) :
  match_at pattern s = Some x -> match_at pattern (s ++ t) = Some x.
Proof.
  destruct x as [n g]. intro H. apply pattern_shape in H
    as (ws1 & body & ws2 & p & ws3 & rest & -> & Hwf & -> & ->).
  rewrite <- app_assoc. now apply pattern_site.
Qed.

Lemma pattern_restrict (s t : text) (n : nat) (g : groups) :
  match_at pattern (s ++ t) = Some (n, g) -> n <= length s ->
  match_at pattern s = Some (n, g).
Proof.
  intros H L. apply pattern_shape in H
    as (ws1 & body & ws2 & p & ws3 & rest & E & Hwf & -> & ->).
  destruct (app_prefix_length _ _ _ _ E L) as [u ->].
  now apply pattern_site.
Qed.

Lemma cleanup_extend (s t : text) (x : nat * groups) :
  match_at cleanup_pattern s = Some x ->
  match_at cleanup_pattern (s ++ t) = Some x.
Proof.
  destruct x as [n g]. intro H. apply cleanup_shape in H
    as (w1 & w2 & v & rest & -> & H1 & H2 & Hv & -> & ->).
  rewrite <- app_assoc. now apply cleanup_site.
Qed.

Lemma cleanup_restrict (s t : text) (n : nat) (g : groups) :
  match_at cleanup_pattern (s ++ t) = Some (n, g) -> n <= length s ->
  match_at cleanup_pattern s = Some (n, g).
Proof.
  intros H L. apply cleanup_shape in H
    as (w1 & w2 & v & rest & E & H1 & H2 & Hv & -> & ->).
  destruct (app_prefix_length _ _ _ _ E L) as [u ->].
  now apply cleanup_site.
Qed.

Lemma step1_contained (pre rest : text) :
  contained pattern pre rest = true ->
  step1 (pre ++ rest) = step1 pre ++ step1 rest.
Proof.
  apply re_sub_contained.
  - exact pattern_span.
  - exact pattern_extend.
  - exact pattern_restrict.
Qed.

Lemma step2_contained (pre rest : text) :
  contained cleanup_pattern pre rest = true ->
  step2 (pre ++ rest) = step2 pre ++ step2 rest.
Proof.
  apply re_sub_contained.
  - exact cleanup_span.
  - exact cleanup_extend.
  - exact cleanup_restrict.
Qed.

(** ** Where a cleanup match can and cannot reach *)

Lemma stray_site_chars (w1 w2 v : text) (c : ascii) :
  own_lines w1 = true -> own_lines w2 = true -> is_variant v = true ->
  In c (stray_site w1 w2 v) -> cleanup_char c = true.
Proof.
  intros H1 H2 Hv. apply own_lines_inv in H1 as [A1 _], H2 as [A2 _].
  unfold stray_site, cleanup_char. intro H.
  repeat (apply in_app_or in H as [H|H]).
  - destruct H as [<-|[]]. reflexivity.
  - now rewrite (@all_of_in is_space w1 c A1 H).
  - destruct H as [<-|[]]. reflexivity.
  - now rewrite (@all_of_in is_space w2 c A2 H).
  - apply orb_true_intro. right. apply existsb_exists. exists c.
    split; [|apply Ascii.eqb_refl].
    revert H. vm_compute. intuition.
  - apply orb_true_intro. right. apply existsb_exists. exists c.
    split; [|apply Ascii.eqb_refl].
    destruct (is_variant_cases _ Hv) as [-> | ->];
      revert H; vm_compute; intuition.
Qed.

(** A cleanup match stops short of any character it cannot contain. *)
Lemma cleanup_foreign (u : text) (c : ascii) (t : text) (n : nat)
  (g : groups) :
  cleanup_char c = false ->
  match_at cleanup_pattern (u ++ c :: t) = Some (n, g) -> n <= length u.
Proof.
  intros Hc H. apply cleanup_shape in H
    as (w1 & w2 & v & rest & E & H1 & H2 & Hv & -> & _).
  apply prefix_before_foreign in E as [u' ->].
  - rewrite length_app. lia.
  - intro F. apply (@stray_site_chars w1 w2 v c H1 H2 Hv) in F. congruence.
Qed.

Lemma step2_pass (c : ascii) (s : text) :
  c <> ")"%char -> step2 (c :: s) = c :: step2 s.
Proof.
  intro H. unfold step2. apply re_sub_pass. now apply cleanup_head.
Qed.

Lemma step2_foreign (a : text) (c : ascii) (b : text) :
  cleanup_char c = false -> step2 (a ++ c :: b) = step2 a ++ c :: step2 b.
Proof.
  intro Hc. rewrite step2_contained.
  - f_equal. apply step2_pass. intros ->. discriminate.
  - apply contained_of_bound. intros a1 a2 n g _ _ E.
    exact (@cleanup_foreign a2 c b n g Hc E).
Qed.

(** Text without a closing parenthesis is copied by step 2. *)
Lemma step2_no_close (a b : text) :
  ~ In ")"%char a -> step2 (a ++ b) = a ++ step2 b.
Proof.
  induction a as [|c a IH]; intro H; [reflexivity|].
  simpl app. rewrite step2_pass.
  - f_equal. apply IH. intro F. apply H. now right.
  - intros ->. apply H. now left.
Qed.

(** One stage of reading white space and then [c], when the text is cut
    in two before a character that is not white space. *)
Lemma run_split (a : text) (hb : ascii) (b w : text) (c : ascii) (t : text) :
  a ++ hb :: b = w ++ c :: t ->
  all_of is_space w = true -> is_space hb = false ->
  (w = a /\ hb = c /\ b = t) \/ (exists a', a = w ++ c :: a' /\ a' ++ hb :: b = t).
Proof.
  revert a. induction w as [|x w IH]; intros a E Hw Hb.
  - destruct a as [|y a]; simpl in E.
    + injection E as -> ->. now left.
    + injection E as -> E. right. now exists a.
  - simpl in Hw. apply andb_prop in Hw as [Hx Hw].
    destruct a as [|y a]; simpl in E.
    + injection E as -> _. congruence.
    + injection E as -> E. destruct (IH a E Hw Hb) as [(-> & -> & ->)|(a' & -> & F)].
      * now left.
      * right. now exists a'.
Qed.

(** A cleanup match that starts before a stray site ends before it: the
    site's first parenthesis cannot be the second one of another match,
    for what follows it is a parenthesis and not a dot. *)
Lemma cleanup_before_site (a : text) (w1 w2 v post : text) (n : nat)
  (g : groups) :
  a <> [] -> own_lines w1 = true ->
  match_at cleanup_pattern (a ++ stray_site w1 w2 v ++ post) = Some (n, g) ->
  n <= length a.
Proof.
  intros Ha H1 H. apply own_lines_inv in H1 as [A1 _].
  apply cleanup_shape in H
    as (w1' & w2' & v' & rest & E & H1' & H2' & Hv' & -> & _).
  apply own_lines_inv in H1' as [A1' _], H2' as [A2' _].
  destruct a as [|y a]; [congruence|]. clear Ha.
  unfold stray_site in E. rewrite <- !app_assoc in E.
  simpl in E. injection E as -> E.
  destruct (@run_split _ _ _ _ _ _ E A1' eq_refl)
    as [(-> & _ & F)|(a' & -> & F)]; clear E.
  - exfalso. symmetry in F.
    apply (f_equal (drop_while is_space)) in F.
    rewrite !drop_while_run in F by (assumption || reflexivity).
    discriminate F.
  - destruct (@run_split _ _ _ _ _ _ F A2' eq_refl)
      as [(_ & E & _)|(a'' & -> & E)]; [discriminate E|]. clear F.
    change ("f"%char :: "e"%char :: "t"%char :: "c"%char :: "h"%char
              :: "_"%char :: v' ++ rest)
      with ((str "fetch_" ++ v') ++ rest) in E.
    apply prefix_before_foreign in E as [u ->].
    + unfold stray_site. simpl. rewrite !length_app. simpl.
      rewrite !length_app. simpl. rewrite !length_app. simpl. lia.
    + destruct (is_variant_cases _ Hv') as [-> | ->];
        vm_compute; intuition discriminate.
Qed.

(** ** What a pass keeps and what it adds, match by match *)

Section KeepThroughSub.
Variables (r : regex) (repl : groups -> text).

Hypothesis span :
  forall s n g, match_at r s = Some (n, g) -> 0 < n <= length s.

(** A filter that cannot tell a matched span from its replacement cannot
    tell the input from the output. *)
Lemma filter_through_sub (p : ascii -> bool) :
  (forall s n g, match_at r s = Some (n, g) ->
     filter p (repl g) = filter p (firstn n s)) ->
  forall s, filter p (re_sub r repl s) = filter p s.
Proof.
  intros K s. remember (length s) as m eqn:Hm. revert s Hm.
  induction m as [m IH] using lt_wf_ind. intros s Hm.
  destruct s as [|c s]; [reflexivity|].
  destruct (match_at r (c :: s)) as [[n g]|] eqn:E.
  - pose proof (span _ E) as Hn.
    rewrite (@re_sub_hit r repl _ _ _ E Hn), filter_app, (K _ _ _ E).
    rewrite (IH (length (skipn n (c :: s)))); [| |reflexivity].
    + now rewrite <- filter_app, firstn_skipn.
    + rewrite length_skipn. lia.
  - rewrite re_sub_pass by exact E. cbn [filter].
    rewrite (IH (length s)); [reflexivity|simpl in Hm; lia|reflexivity].
Qed.

(** A count that a substitution raises by [up] and lowers by [down] is,
    after the pass, up and down by that much for every substitution. *)
Lemma occurrences_through_sub (c : ascii) (up down : nat) :
  (forall s n g, match_at r s = Some (n, g) ->
     occurrences c (repl g) + down = occurrences c (firstn n s) + up) ->
  forall s,
    occurrences c (re_sub r repl s) + down * subn_aux r s 0
    = occurrences c s + up * subn_aux r s 0.
Proof.
  intros K s. remember (length s) as m eqn:Hm. revert s Hm.
  induction m as [m IH] using lt_wf_ind. intros s Hm.
  destruct s as [|x s]; [cbn; lia|].
  destruct (match_at r (x :: s)) as [[n g]|] eqn:E.
  - pose proof (span _ E) as Hn. pose proof (K _ _ _ E) as Kg.
    rewrite (@re_sub_hit r repl _ _ _ E Hn), (@subn_hit r _ _ _ E Hn).
    pose proof (IH (length (skipn n (x :: s)))) as IH'.
    specialize (IH' ltac:(rewrite length_skipn; lia) _ eq_refl).
    assert (A : occurrences c (x :: s)
                = occurrences c (firstn n (x :: s))
                  + occurrences c (skipn n (x :: s))).
    { unfold occurrences. now rewrite <- count_occ_app, firstn_skipn. }
    unfold occurrences in *. rewrite count_occ_app. lia.
  - rewrite re_sub_pass, subn_pass by exact E.
    pose proof (IH (length s) ltac:(simpl in Hm; lia) _ eq_refl) as IH'.
    unfold occurrences in *. cbn [count_occ].
    destruct (ascii_dec x c); lia.
Qed.

End KeepThroughSub.

Lemma occurrences_app (c : ascii) (a b : text) :
  occurrences c (a ++ b) = occurrences c a + occurrences c b.
Proof. apply count_occ_app. Qed.

Lemma occurrences_class (p : ascii -> bool) (c : ascii) (w : text) :
  all_of p w = true -> p c = false -> occurrences c w = 0.
Proof.
  intros Hw Hc. apply count_occ_not_In. intro H.
  apply (@all_of_in p w c Hw) in H. congruence.
Qed.

Lemma filter_solid_space (w : text) :
  all_of is_space w = true -> filter solid w = [].
Proof.
  induction w as [|x w IH]; [reflexivity|].
  simpl. intro H. apply andb_prop in H as [Hx Hw].
  unfold solid at 1. rewrite Hx. simpl. now apply IH.
Qed.

Lemma firstn_exact (a b : text) : firstn (length a) (a ++ b) = a.
Proof. now rewrite firstn_app, Nat.sub_diag, firstn_all, app_nil_r. Qed.

Lemma call_site_parens (ws1 body ws2 param ws3 : text) :
  well_formed ws1 body ws2 param ws3 = true ->
  occurrences "(" (bound_call ws1 body param)
  = occurrences "(" (call_site ws1 body ws2 param ws3) + 1
  /\ occurrences ")" (bound_call ws1 body param)
     = occurrences ")" (call_site ws1 body ws2 param ws3) + 1.
Proof.
  intro W. apply well_formed_inv in W as (_ & _ & H2 & Hp & _ & H3).
  unfold bound_call, call_site. rewrite !occurrences_app.
  rewrite !(@occurrences_class is_space "(" ws2 H2 eq_refl).
  rewrite !(@occurrences_class is_space "(" ws3 H3 eq_refl).
  rewrite !(@occurrences_class is_word "(" param Hp eq_refl).
  rewrite !(@occurrences_class is_space ")" ws2 H2 eq_refl).
  rewrite !(@occurrences_class is_space ")" ws3 H3 eq_refl).
  rewrite !(@occurrences_class is_word ")" param Hp eq_refl).
  change (occurrences "(" (str ")")) with 0.
  change (occurrences "(" (str ",")) with 0.
  change (occurrences "(" [nl]) with 0.
  change (occurrences "(" indent) with 0.
  change (occurrences "(" (str ".bind(")) with 1.
  change (occurrences ")" (str ")")) with 1.
  change (occurrences ")" (str ",")) with 0.
  change (occurrences ")" [nl]) with 0.
  change (occurrences ")" indent) with 0.
  change (occurrences ")" (str ".bind(")) with 0.
  lia.
Qed.

Lemma stray_site_parens (w1 w2 v : text) :
  own_lines w1 = true -> own_lines w2 = true -> is_variant v = true ->
  occurrences ")" (stray_site w1 w2 v) = 2
  /\ occurrences ")" (collapsed v) = 1
  /\ occurrences "(" (stray_site w1 w2 v) = 0
  /\ occurrences "(" (collapsed v) = 0
  /\ filter solid (stray_site w1 w2 v) = filter solid (collapsed v).
Proof.
  intros H1 H2 Hv. apply own_lines_inv in H1 as [A1 _], H2 as [A2 _].
  unfold stray_site, collapsed. rewrite !occurrences_app, !filter_app.
  rewrite !(@occurrences_class is_space ")" w1 A1 eq_refl).
  rewrite !(@occurrences_class is_space ")" w2 A2 eq_refl).
  rewrite !(@occurrences_class is_space "(" w1 A1 eq_refl).
  rewrite !(@occurrences_class is_space "(" w2 A2 eq_refl).
  rewrite (@filter_solid_space w1 A1), (@filter_solid_space w2 A2).
  destruct (is_variant_cases _ Hv) as [-> | ->]; repeat split.
Qed.

(** * The claims *)

Lemma rewrite_fst (content : text) :
  fst (rewrite content) = step2 (step1 content).
Proof. reflexivity. Qed.

Lemma rewrite_snd (content : text) :
  snd (rewrite content) = rewritten_sites content + count bind_marker content.
Proof.
  unfold rewrite. cbn [snd]. now rewrite step2_count, step1_count.
Qed.

Lemma step1_no_match (s : text) : no_match pattern s = true -> step1 s = s.
Proof. apply re_sub_no_match. Qed.

Lemma step2_no_match (s : text) :
  no_match cleanup_pattern s = true -> step2 s = s.
Proof. apply re_sub_no_match. Qed.

(** ** The reported count, and buffers without a call site *)

(** C6.  The reported count is the number of occurrences of the marker
    [.bind(] in the final buffer; it is the number of call sites step 1
    rewrote plus the number of markers the input already held, so it
    exceeds the former whenever the input held one. *)
Theorem C6_count_is_markers_in_output (content : text) :
  snd (rewrite content) = count bind_marker (fst (rewrite content))
  /\ snd (rewrite content)
     = rewritten_sites content + count bind_marker content
  /\ (0 < count bind_marker content ->
      rewritten_sites content < snd (rewrite content)).
Proof.
  split; [reflexivity|]. split; [apply rewrite_snd|].
  intro H. rewrite rewrite_snd. lia.
Qed.

Lemma C6_witness :
  0 < count bind_marker (str "q.bind(a)")
  /\ rewritten_sites (str "q.bind(a)") < snd (rewrite (str "q.bind(a)")).
Proof.
  assert (H : 0 < count bind_marker (str "q.bind(a)")) by (vm_compute; lia).
  split; [exact H|].
  exact (proj2 (proj2 (C6_count_is_markers_in_output (str "q.bind(a)"))) H).
Defined.

(** C2, as stated, fails: a buffer without any call site of step 1 is
    still changed by step 2 where it holds two closing parentheses on lines
    of their own before a fetch call. *)
Lemma C2_counterexample :
  let buf := str ")" ++ [nl] ++ str ")" ++ [nl] ++ str ".fetch_one" in
  no_match pattern buf = true
  /\ step1 buf = buf
  /\ fst (rewrite buf) = str ")" ++ [nl] ++ indent ++ str ".fetch_one"
  /\ fst (rewrite buf) <> buf.
Proof. vm_compute. repeat split; try reflexivity. discriminate. Qed.

(** C2 (amended).  For every buffer in which the pattern of step 1 matches
    nowhere, step 1 returns the buffer as it is, so the output is the
    cleanup of the input: the input itself when the cleanup pattern matches
    nowhere either.  The reported count is in every case the number of
    markers the input already held. *)
Theorem C2_no_call_site (content : text) :
  no_match pattern content = true ->
  step1 content = content
  /\ fst (rewrite content) = step2 content
  /\ snd (rewrite content) = count bind_marker content
  /\ (no_match cleanup_pattern content = true ->
      rewrite content = (content, count bind_marker content)).
Proof.
  intro H. pose proof (@step1_no_match _ H) as E.
  split; [exact E|]. split; [now rewrite rewrite_fst, E|].
  split.
  - unfold rewrite. cbn [snd]. now rewrite step2_count, E.
  - intro H2. unfold rewrite. now rewrite E, (@step2_no_match _ H2).
Qed.

Lemma C2_witness :
  no_match pattern (str "let q = a.bind(b);") = true
  /\ snd (rewrite (str "let q = a.bind(b);")) = 1.
Proof.
  assert (H : no_match pattern (str "let q = a.bind(b);") = true)
    by (vm_compute; reflexivity).
  split; [exact H|].
  exact (proj1 (proj2 (proj2 (@C2_no_call_site _ H)))).
Defined.

(** ** Step 2 on the shape it is written for *)

Lemma step2_site (w1 w2 v post : text) :
  own_lines w1 = true -> own_lines w2 = true -> is_variant v = true ->
  step2 (stray_site w1 w2 v ++ post) = collapsed v ++ step2 post.
Proof.
  intros H1 H2 Hv. pose proof (@cleanup_site w1 w2 v post H1 H2 Hv) as E.
  unfold step2.
  rewrite (@re_sub_hit cleanup_pattern cleanup_template _ _ _ E
             (@cleanup_span _ _ _ E)).
  rewrite cleanup_template_groups. f_equal.
  rewrite skipn_app, Nat.sub_diag, skipn_all. reflexivity.
Qed.

(** C4.  Two closing parentheses, each on a line of its own amid any
    white space, and then a [.fetch_one] or [.fetch_all]: wherever the
    buffer holds this, step 2 puts one closing parenthesis, a line feed,
    the indentation and the same fetch call in its place, and treats the
    text before and the text after as it would on their own. *)
Theorem C4_cleanup_collapses (pre w1 w2 v post : text) :
  own_lines w1 = true -> own_lines w2 = true -> is_variant v = true ->
  step2 (pre ++ stray_site w1 w2 v ++ post)
  = step2 pre ++ collapsed v ++ step2 post.
Proof.
  intros H1 H2 Hv. rewrite step2_contained.
  - f_equal. now apply step2_site.
  - apply contained_of_bound. intros a1 a2 n g _ Ha E.
    exact (@cleanup_before_site a2 w1 w2 v post n g Ha H1 E).
Qed.

Lemma C4_witness :
  let pre := str "    tool" ++ [nl] in
  let w1 := [nl] in
  let w2 := str "  " ++ [nl] ++ str "    " in
  own_lines w1 = true /\ own_lines w2 = true
  /\ is_variant (str "all") = true
  /\ step2 (pre ++ stray_site w1 w2 (str "all") ++ str "(&pool)")
     = pre ++ str ")" ++ [nl] ++ indent ++ str ".fetch_all(&pool)".
Proof.
  intros pre w1 w2.
  assert (H1 : own_lines w1 = true) by reflexivity.
  assert (H2 : own_lines w2 = true) by reflexivity.
  assert (Hv : is_variant (str "all") = true) by reflexivity.
  split; [exact H1|]. split; [exact H2|]. split; [exact Hv|].
  exact (eq_trans
           (@C4_cleanup_collapses pre w1 w2 (str "all") (str "(&pool)")
              H1 H2 Hv) eq_refl).
Defined.

(** ** Step 1 on well-formed call sites *)

Lemma no_close_app (a b : text) :
  ~ In ")"%char a -> ~ In ")"%char b -> ~ In ")"%char (a ++ b).
Proof. intros Ha Hb H. apply in_app_or in H. tauto. Qed.

Lemma step1_site (ws1 body ws2 param ws3 rest : text) :
  well_formed ws1 body ws2 param ws3 = true ->
  step1 (call_site ws1 body ws2 param ws3 ++ rest)
  = bound_call ws1 body param ++ step1 rest.
Proof.
  intro H. pose proof (@pattern_site ws1 body ws2 param ws3 rest H) as E.
  unfold step1.
  rewrite (@re_sub_hit pattern replace_query _ _ _ E (@pattern_span _ _ _ E)).
  rewrite replace_query_groups. f_equal.
  rewrite skipn_app, Nat.sub_diag, skipn_all. reflexivity.
Qed.

Lemma sites_site (ws1 body ws2 param ws3 rest : text) :
  well_formed ws1 body ws2 param ws3 = true ->
  rewritten_sites (call_site ws1 body ws2 param ws3 ++ rest)
  = S (rewritten_sites rest).
Proof.
  intro H. pose proof (@pattern_site ws1 body ws2 param ws3 rest H) as E.
  unfold rewritten_sites.
  rewrite (@subn_hit pattern _ _ _ E (@pattern_span _ _ _ E)).
  rewrite skipn_app, Nat.sub_diag, skipn_all. reflexivity.
Qed.

Lemma step1_skip (pre rest : text) :
  no_match_in pattern pre rest = true ->
  step1 (pre ++ rest) = pre ++ step1 rest.
Proof. apply re_sub_no_match_in. Qed.

Lemma sites_skip (pre rest : text) :
  no_match_in pattern pre rest = true ->
  rewritten_sites (pre ++ rest) = rewritten_sites rest.
Proof. apply subn_no_match_in. Qed.

Lemma sites_none (s : text) :
  no_match pattern s = true -> rewritten_sites s = 0.
Proof. apply subn_no_match. Qed.

(** C7.  A buffer with two well-formed call sites, one after the other,
    and no other place where the pattern matches: step 1 rewrites the first,
    resumes after its span and rewrites the second; the text around them is
    kept; two call sites are rewritten and, the input holding no marker,
    the reported count is 2. *)
Theorem C7_two_call_sites
  (pre mid post ws1 body ws2 param ws3 ws1' body' ws2' param' ws3' : text) :
  well_formed ws1 body ws2 param ws3 = true ->
  well_formed ws1' body' ws2' param' ws3' = true ->
  no_match_in pattern pre
    (call_site ws1 body ws2 param ws3 ++ mid
     ++ call_site ws1' body' ws2' param' ws3' ++ post) = true ->
  no_match_in pattern mid
    (call_site ws1' body' ws2' param' ws3' ++ post) = true ->
  no_match pattern post = true ->
  count bind_marker
    (pre ++ call_site ws1 body ws2 param ws3 ++ mid
     ++ call_site ws1' body' ws2' param' ws3' ++ post) = 0 ->
  step1 (pre ++ call_site ws1 body ws2 param ws3 ++ mid
         ++ call_site ws1' body' ws2' param' ws3' ++ post)
  = pre ++ bound_call ws1 body param ++ mid
    ++ bound_call ws1' body' param' ++ post
  /\ rewritten_sites
       (pre ++ call_site ws1 body ws2 param ws3 ++ mid
        ++ call_site ws1' body' ws2' param' ws3' ++ post) = 2
  /\ snd (rewrite
            (pre ++ call_site ws1 body ws2 param ws3 ++ mid
             ++ call_site ws1' body' ws2' param' ws3' ++ post)) = 2.
Proof.
  intros W1 W2 Npre Nmid Npost Hc.
  assert (R : rewritten_sites
       (pre ++ call_site ws1 body ws2 param ws3 ++ mid
        ++ call_site ws1' body' ws2' param' ws3' ++ post) = 2).
  { rewrite sites_skip by assumption. rewrite sites_site by assumption.
    rewrite sites_skip by assumption. rewrite sites_site by assumption.
    now rewrite sites_none by assumption. }
  split; [|split; [exact R|]].
  - rewrite step1_skip by assumption. rewrite step1_site by assumption.
    rewrite step1_skip by assumption. rewrite step1_site by assumption.
    now rewrite step1_no_match by assumption.
  - rewrite rewrite_snd, R, Hc. reflexivity.
Qed.

Lemma C7_witness :
  let site1 := call_site [] (str "SELECT 1") (str " ") (str "a") [] in
  let site2 := call_site [nl] (str "SELECT 2") [nl] (str "b") [nl] in
  snd (rewrite (str "x = " ++ site1 ++ str "; y = " ++ site2 ++ str ";")) = 2.
Proof.
  intros site1 site2.
  refine (proj2 (proj2 (@C7_two_call_sites (str "x = ") (str "; y = ")
    (str ";") [] (str "SELECT 1") (str " ") (str "a") []
    [nl] (str "SELECT 2") [nl] (str "b") [nl] _ _ _ _ _ _)));
    vm_compute; reflexivity.
Defined.

Lemma cleanup_not_at_bind (t : text) :
  match_at cleanup_pattern (")"%char :: nl :: indent ++ "."%char :: t) = None.
Proof. rewrite cleanup_scan. vm_compute. reflexivity. Qed.

Lemma no_close_in_class (p : ascii -> bool) (s : text) :
  p ")"%char = false -> all_of p s = true -> ~ In ")"%char s.
Proof.
  intros Hp Hs Hin. apply (@all_of_in p s ")"%char Hs) in Hin. congruence.
Qed.

(** Step 2 on a rewritten call site: nothing of it changes, so long as the
    cleanup pattern matches nowhere in the body of the string. *)
Lemma step2_bound_call (pre ws1 body param post : text) :
  all_of is_space ws1 = true -> all_of is_word param = true ->
  no_match cleanup_pattern body = true ->
  step2 (pre ++ bound_call ws1 body param ++ post)
  = step2 pre ++ query_part ws1 body ++ str ")" ++ [nl] ++ indent
    ++ str ".bind(" ++ param ++ step2 (str ")" ++ post).
Proof.
  intros Hws Hp Hb.
  unfold bound_call, query_part. rewrite <- !app_assoc.
  change (str "sqlx::query(" ++ ws1 ++ str "r#" ++ [dq] ++ body ++ [dq]
          ++ str "#" ++ str ")" ++ [nl] ++ indent ++ str ".bind(" ++ param
          ++ str ")" ++ post)
    with ("s"%char :: (str "qlx::query(" ++ ws1 ++ str "r#" ++ dq :: body
          ++ dq :: "#"%char :: ")"%char :: nl :: indent ++ "."%char ::
             str "bind(" ++ param ++ str ")" ++ post)).
  rewrite step2_foreign by reflexivity. f_equal.
  change (str "sqlx::query(" ++ ws1 ++ str "r#" ++ [dq] ++ body ++ [dq]
          ++ str "#" ++ str ")" ++ [nl] ++ indent ++ str ".bind(" ++ param
          ++ step2 (str ")" ++ post))
    with ("s"%char :: (str "qlx::query(" ++ ws1 ++ str "r#" ++ dq :: body
          ++ dq :: "#"%char :: ")"%char :: nl :: indent ++ "."%char ::
             str "bind(" ++ param ++ step2 (str ")" ++ post))).
  f_equal.
  rewrite (app_assoc (str "qlx::query(")), (app_assoc (str "qlx::query(" ++ ws1)).
  rewrite step2_no_close.
  2:{ repeat apply no_close_app.
      - vm_compute. intuition discriminate.
      - now apply (@no_close_in_class is_space).
      - vm_compute. intuition discriminate. }
  rewrite <- !app_assoc. do 3 f_equal.
  rewrite step2_pass by discriminate. f_equal.
  rewrite step2_foreign by reflexivity.
  rewrite step2_no_match by assumption. do 2 f_equal.
  rewrite step2_pass by discriminate. f_equal.
  unfold step2 at 1. rewrite re_sub_pass by apply cleanup_not_at_bind.
  fold (step2 (nl :: indent ++ "."%char :: str "bind(" ++ param
               ++ str ")" ++ post)).
  f_equal.
  change (nl :: indent ++ "."%char :: str "bind(" ++ param ++ str ")" ++ post)
    with ((nl :: indent ++ "."%char :: str "bind(") ++ param
          ++ str ")" ++ post).
  rewrite app_assoc, step2_no_close.
  - now rewrite <- app_assoc.
  - apply no_close_app.
    + vm_compute. intuition discriminate.
    + now apply (@no_close_in_class is_word).
Qed.

Lemma step2_keeps_close (post : text) :
  exists t, step2 (str ")" ++ post) = str ")" ++ t.
Proof.
  unfold step2. change (str ")" ++ post) with (")"%char :: post).
  destruct (match_at cleanup_pattern (")"%char :: post)) as [[n g]|] eqn:E.
  - rewrite (@re_sub_hit cleanup_pattern cleanup_template _ _ _ E
               (@cleanup_span _ _ _ E)).
    apply cleanup_shape in E as (w1 & w2 & v & rest & _ & _ & _ & _ & _ & ->).
    rewrite cleanup_template_groups. unfold collapsed.
    rewrite <- !app_assoc. eexists. reflexivity.
  - rewrite re_sub_pass by exact E. eexists. reflexivity.
Qed.

(** C1, as stated, fails: the raw string literal does not always come out
    unchanged.  Step 2 runs over the whole buffer, string bodies included,
    and collapses a body that holds two closing parentheses on lines of
    their own before a fetch call; the output is then too short to hold the
    literal. *)
Lemma C1_counterexample :
  let body := str ")" ++ [nl] ++ str "        )" ++ [nl]
              ++ str "        .fetch_one" in
  let buf := call_site [] body (str " ") (str "p") [] in
  well_formed [] body (str " ") (str "p") [] = true
  /\ count bind_marker buf = 0
  /\ fst (rewrite buf)
     = str "sqlx::query(r#" ++ [dq] ++ str ")" ++ [nl] ++ indent
       ++ str ".fetch_one" ++ [dq] ++ str "#)" ++ [nl] ++ indent
       ++ str ".bind(p)"
  /\ ~ exists a b,
         fst (rewrite buf) = a ++ bound_call [] body (str "p") ++ b.
Proof.
  intros body buf. repeat split; try (vm_compute; reflexivity).
  intros (a & b & E). apply (f_equal (@length ascii)) in E.
  rewrite !length_app in E.
  assert (L : length (fst (rewrite buf))
              < length (bound_call [] body (str "p"))) by (vm_compute; lia).
  lia.
Qed.

(** C1 (amended).  A buffer with exactly one well-formed call site
    [sqlx::query(r#DQ...DQ#, param)] and no marker [.bind(]: step 1 puts
    the invocation and the raw string literal, unchanged, then a closing
    parenthesis, a line feed, eight spaces and [.bind(param)] in its place;
    the output holds exactly that text, and the reported count is 1,
    provided the cleanup pattern matches nowhere inside the body of the
    string. *)
Theorem C1_one_call_site (pre post ws1 body ws2 param ws3 : text) :
  well_formed ws1 body ws2 param ws3 = true ->
  no_match_in pattern pre (call_site ws1 body ws2 param ws3 ++ post) = true ->
  no_match pattern post = true ->
  no_match cleanup_pattern body = true ->
  count bind_marker (pre ++ call_site ws1 body ws2 param ws3 ++ post) = 0 ->
  step1 (pre ++ call_site ws1 body ws2 param ws3 ++ post)
  = pre ++ bound_call ws1 body param ++ post
  /\ (exists t,
        fst (rewrite (pre ++ call_site ws1 body ws2 param ws3 ++ post))
        = step2 pre ++ bound_call ws1 body param ++ t)
  /\ snd (rewrite (pre ++ call_site ws1 body ws2 param ws3 ++ post)) = 1.
Proof.
  intros W Npre Npost Nbody Hc.
  assert (E : step1 (pre ++ call_site ws1 body ws2 param ws3 ++ post)
              = pre ++ bound_call ws1 body param ++ post).
  { rewrite step1_skip by assumption. rewrite step1_site by assumption.
    now rewrite step1_no_match by assumption. }
  split; [exact E|]. split.
  - rewrite rewrite_fst, E.
    pose proof (well_formed_inv _ _ _ _ _ W) as (H1 & _ & _ & Hp & _ & _).
    rewrite step2_bound_call by assumption.
    destruct (step2_keeps_close post) as [t ->]. exists t.
    unfold bound_call. now rewrite <- !app_assoc.
  - rewrite rewrite_snd, Hc.
    rewrite sites_skip by assumption. rewrite sites_site by assumption.
    now rewrite sites_none by assumption.
Qed.

Lemma C1_witness :
  let buf := str "let r = " ++ call_site [] (str "SELECT 1") (str " ")
               (str "param") [] ++ str ";" in
  step1 buf = str "let r = " ++ bound_call [] (str "SELECT 1") (str "param")
              ++ str ";"
  /\ snd (rewrite buf) = 1.
Proof.
  intro buf.
  assert (W : well_formed [] (str "SELECT 1") (str " ") (str "param") []
              = true) by reflexivity.
  assert (N1 : no_match_in pattern (str "let r = ")
                 (call_site [] (str "SELECT 1") (str " ") (str "param") []
                  ++ str ";") = true) by (vm_compute; reflexivity).
  assert (N2 : no_match pattern (str ";") = true) by reflexivity.
  assert (N3 : no_match cleanup_pattern (str "SELECT 1") = true)
    by reflexivity.
  assert (Hc : count bind_marker (str "let r = "
                 ++ call_site [] (str "SELECT 1") (str " ") (str "param") []
                 ++ str ";") = 0) by (vm_compute; reflexivity).
  pose proof (@C1_one_call_site (str "let r = ") (str ";") []
                (str "SELECT 1") (str " ") (str "param") [] W N1 N2 N3 Hc)
    as (E & _ & C).
  exact (conj E C).
Defined.

(** ** Call sites the pattern does not match *)




Lemma fence_free_tail (a b : text) :
  fence_free (a ++ b) = true -> fence_free b = true.
Proof.
  induction a as [|x a IH]; [auto|].
  simpl app. cbn [fence_free]. intro H. apply andb_prop in H as [_ H]. auto.
Qed.

Lemma first_dq (body : text) :
  has_dq body = true ->
  exists b1 b2, body = b1 ++ dq :: b2 /\ all_of not_dq b1 = true.
Proof.
  unfold has_dq. intro H. exists (take_while not_dq body).
  destruct (drop_while not_dq body) as [|c b2] eqn:E.
  - exfalso. apply existsb_exists in H as (x & Hin & Hx).
    pose proof (take_drop not_dq body) as T. rewrite E, app_nil_r in T.
    pose proof (take_while_all not_dq body) as A. rewrite T in A.
    apply (@all_of_in not_dq body x A) in Hin.
    apply not_dq_eqb in Hin. rewrite Ascii.eqb_sym in Hx. congruence.
  - exists b2. split; [|apply take_while_all].
    pose proof (drop_while_head _ _ E) as Hc.
    unfold not_dq in Hc. apply negb_false_iff in Hc.
    apply Ascii.eqb_eq in Hc. subst c.
    rewrite <- E. symmetry. apply take_drop.
Qed.

(** A raw string whose body holds a double quote ahead of the closing
    fence is no match: the body class stops at that quote, and no hash
    follows it. *)
Lemma quoted_body_no_match (ws1 body rest : text) :
  all_of is_space ws1 = true -> has_dq body = true ->
  fence_free body = true ->
  match_at pattern (query_part ws1 body ++ rest) = None.
Proof.
  intros Hws Hq Hf. destruct (first_dq _ Hq) as (b1 & b2 & -> & Hb1).
  apply fence_free_tail in Hf. cbn [fence_free] in Hf.
  apply andb_prop in Hf as [Hf _]. apply negb_true_iff in Hf.
  set (t4 := b2 ++ dq :: "#"%char :: rest).
  set (t3 := b1 ++ dq :: t4).
  set (t1 := ws1 ++ "r"%char :: "#"%char :: dq :: t3).
  assert (ES : query_part ws1 (b1 ++ dq :: b2) ++ rest
               = str "sqlx::query(" ++ t1).
  { unfold query_part, t1, t3, t4. rewrite <- !app_assoc.
    reflexivity. }
  rewrite pattern_scan, ES. unfold scan_call_site. rewrite strip_app.
  unfold t1 at 1. rewrite drop_while_run by (assumption || reflexivity).
  change ("r"%char :: "#"%char :: dq :: t3) with ((str "r#" ++ [dq]) ++ t3).
  rewrite strip_app.
  unfold t3 at 1. rewrite drop_while_run; [|assumption|reflexivity].
  replace (strip (dq :: str "#") (dq :: t4)) with (@None text); [reflexivity|].
  symmetry. unfold t4. destruct b2 as [|x b2].
  - reflexivity.
  - cbn [starts_with str list_ascii_of_string] in Hf.
    rewrite Ascii.eqb_refl in Hf. cbn [andb] in Hf.
    rewrite andb_true_r in Hf.
    cbn [strip str list_ascii_of_string app]. rewrite Ascii.eqb_refl.
    rewrite Ascii.eqb_sym. now rewrite Hf.
Qed.

Lemma no_match_in_cons (r : regex) (c : ascii) (s rest : text) :
  match_at r (c :: s ++ rest) = None ->
  no_match_in r s rest = true -> no_match_in r (c :: s) rest = true.
Proof. intros E H. cbn [no_match_in app]. now rewrite E. Qed.

(** Text that no earlier match reaches into, and in which no match
    starts, goes through step 1 as it is. *)
Lemma step1_passes (pre cs post : text) :
  contained pattern pre (cs ++ post) = true ->
  no_match_in pattern cs post = true ->
  step1 (pre ++ cs ++ post) = step1 pre ++ cs ++ step1 post.
Proof.
  intros C N. rewrite step1_contained by assumption.
  f_equal. now apply step1_skip.
Qed.






(** C10, as stated, fails: the pattern does not match at such a call site,
    yet the call site is not always passed through.  A body that holds a
    double quote can also hold a whole opener of its own; step 1 then
    matches from that inner position, through the closing fence of the
    outer literal, and rewrites the end of the call site. *)
Lemma C10_counterexample :
  let body := str "a" ++ [dq] ++ str " sqlx::query(r#" ++ [dq]
              ++ str "SELECT" in
  let buf := call_site [] body (str " ") (str "p") [] in
  has_dq body = true /\ fence_free body = true
  /\ match_at pattern buf = None
  /\ step1 buf
     = str "sqlx::query(r#" ++ [dq] ++ str "a" ++ [dq] ++ str " "
       ++ bound_call [] (str "SELECT") (str "p")
  /\ step1 buf <> buf.
Proof. vm_compute. repeat split; try reflexivity. discriminate. Qed.

(** C10 (amended).  A call site whose raw string body holds a double
    quote ahead of the closing fence does not match the pattern of step 1:
    the body class excludes the double quote, and no hash follows that
    quote.  Step 1 passes the call site through as it is when no match
    that starts before it reaches into it and no match starts at a later
    position inside it. *)
Theorem C10_quoted_body_passes (pre post ws1 body ws2 param ws3 : text) :
  all_of is_space ws1 = true ->
  has_dq body = true -> fence_free body = true ->
  contained pattern pre (call_site ws1 body ws2 param ws3 ++ post) = true ->
  no_match_in pattern (tl (call_site ws1 body ws2 param ws3)) post = true ->
  match_at pattern (call_site ws1 body ws2 param ws3 ++ post) = None
  /\ step1 (pre ++ call_site ws1 body ws2 param ws3 ++ post)
     = step1 pre ++ call_site ws1 body ws2 param ws3 ++ step1 post.
Proof.
  intros Hws Hq Hf C N.
  assert (E : match_at pattern (call_site ws1 body ws2 param ws3 ++ post)
              = None).
  { unfold call_site. rewrite <- app_assoc.
    now apply quoted_body_no_match. }
  split; [exact E|].
  apply step1_passes; [exact C|].
  change (call_site ws1 body ws2 param ws3)
    with ("s"%char :: tl (call_site ws1 body ws2 param ws3)) in E |- *.
  now apply no_match_in_cons.
Qed.

Lemma C10_witness :
  let body := str "SELECT " ++ [dq] ++ str "name" ++ [dq] ++ str " FROM t" in
  let cs := call_site [] body (str " ") (str "p") [] in
  match_at pattern (cs ++ str ";") = None
  /\ step1 (str "let r = " ++ cs ++ str ";") = str "let r = " ++ cs ++ str ";".
Proof.
  intros body cs.
  assert (Hws : all_of is_space [] = true) by reflexivity.
  assert (Hq : has_dq body = true) by reflexivity.
  assert (Hf : fence_free body = true) by reflexivity.
  assert (C : contained pattern (str "let r = ") (cs ++ str ";") = true)
    by (vm_compute; reflexivity).
  assert (N : no_match_in pattern (tl cs) (str ";") = true)
    by (vm_compute; reflexivity).
  pose proof (@C10_quoted_body_passes (str "let r = ") (str ";") [] body
                (str " ") (str "p") [] Hws Hq Hf C N) as [E P].
  exact (conj E (eq_trans P eq_refl)).
Defined.

(** ** A second run

    What step 2 makes of its own output, what step 1 makes of its own,
    and with them what the transformation makes of its own. *)

(** *** Step 2 on its own output *)

Lemma no_match_in_app (r : regex) (a b rest : text) :
  no_match_in r (a ++ b) rest
  = no_match_in r a (b ++ rest) && no_match_in r b rest.
Proof.
  induction a as [|c a IH]; [reflexivity|].
  cbn [app no_match_in]. rewrite <- app_assoc.
  destruct (match_at r (c :: a ++ b ++ rest)); [reflexivity|exact IH].
Qed.

Lemma no_match_in_heads (r : regex) (a rest : text) :
  (forall c s, In c a -> match_at r (c :: s) = None) ->
  no_match_in r a rest = true.
Proof.
  induction a as [|c a IH]; intro H; [reflexivity|].
  cbn [no_match_in app]. rewrite H by now left.
  apply IH. intros x s Hx. apply H. now right.
Qed.

Lemma starts_triple_head (c : ascii) (s : text) :
  c <> ")"%char -> starts_triple (c :: s) = false.
Proof. intro H. cbn [starts_triple]. now rewrite (eqb_neq_false H). Qed.

Lemma triple_free_skip (a b : text) :
  ~ In ")"%char a -> triple_free (a ++ b) = triple_free b.
Proof.
  induction a as [|c a IH]; intro H; [reflexivity|].
  cbn [app triple_free]. rewrite starts_triple_head.
  - apply IH. intro F. apply H. now right.
  - intros ->. apply H. now left.
Qed.

Lemma step2_head (c : ascii) (s : text) :
  exists z, step2 (c :: s) = c :: z.
Proof.
  destruct (ascii_dec c ")") as [->|N].
  - exact (step2_keeps_close s).
  - exists (step2 s). now apply step2_pass.
Qed.

(** What step 2 returns begins with text free of closing parentheses only
    where its input did. *)
Lemma step2_prefix_back (a s z : text) :
  ~ In ")"%char a -> step2 s = a ++ z ->
  exists z', s = a ++ z' /\ step2 z' = z.
Proof.
  revert s. induction a as [|y a IH]; intros s H E.
  - exists s. now split.
  - destruct s as [|x s]; [discriminate E|].
    destruct (ascii_dec x ")") as [->|N].
    + destruct (step2_keeps_close s) as [t Et].
      change (str ")" ++ s) with (")"%char :: s) in Et. rewrite Et in E.
      injection E as <- _. exfalso. apply H. now left.
    + rewrite step2_pass in E by exact N. injection E as -> E.
      destruct (IH s) as (z' & -> & Ez); [intro F; apply H; now right|exact E|].
      exists z'. now split.
Qed.

Lemma space_no_close (w : text) : all_of is_space w = true -> ~ In ")"%char w.
Proof. now apply no_close_in_class. Qed.

Lemma variant_no_close (v : text) : is_variant v = true -> ~ In ")"%char v.
Proof.
  intro H. destruct (is_variant_cases _ H) as [-> | ->];
    vm_compute; intuition discriminate.
Qed.

Lemma stray_site_cons (w1 w2 v rest : text) :
  stray_site w1 w2 v ++ rest
  = ")"%char :: w1 ++ ")"%char :: w2 ++ str ".fetch_" ++ v ++ rest.
Proof. unfold stray_site. now rewrite <- !app_assoc. Qed.

Lemma collapsed_stray (w v rest : text) :
  ")"%char :: w ++ collapsed v ++ rest = stray_site w (nl :: indent) v ++ rest.
Proof.
  rewrite stray_site_cons. unfold collapsed. now rewrite <- !app_assoc.
Qed.

(** Where the input holds three closing parentheses on lines of their
    own before a fetch call, the output holds two. *)
Lemma triple_leaves_match (c : ascii) (t : text) :
  starts_triple (c :: t) = true ->
  match_at cleanup_pattern (c :: step2 t) <> None.
Proof.
  cbn [starts_triple]. intro H. apply andb_prop in H as [H M].
  apply andb_prop in H as [Hc Hn]. apply Ascii.eqb_eq in Hc. subst c.
  destruct (match_at cleanup_pattern (drop_while is_space t))
    as [[n g]|] eqn:E; [|discriminate].
  apply cleanup_shape in E as (w1 & w2 & v & rest & E & H1 & H2 & Hv & _ & _).
  pose proof (take_drop is_space t) as T. rewrite E in T. rewrite <- T.
  rewrite step2_no_close by (apply space_no_close, take_while_all).
  rewrite step2_site by assumption. rewrite collapsed_stray.
  rewrite cleanup_site; [discriminate| |reflexivity|assumption].
  unfold own_lines. now rewrite take_while_all, Hn.
Qed.

(** And a match in the output that the input does not hold comes from
    such a triple. *)
Lemma match_from_triple (c : ascii) (t : text) :
  match_at cleanup_pattern (c :: t) = None ->
  match_at cleanup_pattern (c :: step2 t) <> None ->
  starts_triple (c :: t) = true.
Proof.
  intros N M.
  destruct (match_at cleanup_pattern (c :: step2 t)) as [[n g]|] eqn:E;
    [clear M|now elim M].
  apply cleanup_shape in E as (w1 & w2 & v & rest & E & H1 & H2 & Hv & _ & _).
  rewrite stray_site_cons in E. injection E as -> E.
  destruct (own_lines_inv _ H1) as [A1 N1].
  destruct (own_lines_inv _ H2) as [A2 N2].
  apply step2_prefix_back in E as (z1 & -> & E1); [|now apply space_no_close].
  destruct z1 as [|x z1]; [discriminate E1|].
  destruct (step2_head x z1) as [z Ez]. rewrite Ez in E1.
  injection E1 as -> E1.
  cbn [starts_triple]. rewrite Ascii.eqb_refl.
  rewrite take_while_run, drop_while_run by (assumption || reflexivity).
  rewrite N1. cbn [andb].
  destruct (match_at cleanup_pattern (")"%char :: z1)) as [x|] eqn:E2;
    [reflexivity|].
  exfalso. unfold step2 in Ez. rewrite re_sub_pass in Ez by exact E2.
  injection Ez as Ez. rewrite <- Ez in E1. fold (step2 z1) in E1.
  assert (E3 : step2 z1 = (w2 ++ str ".fetch_" ++ v) ++ rest)
    by (rewrite <- !app_assoc; exact E1).
  apply step2_prefix_back in E3 as (z' & -> & _).
  - rewrite <- !app_assoc in N. rewrite <- stray_site_cons in N.
    rewrite cleanup_site in N by assumption. discriminate.
  - apply no_close_app; [now apply space_no_close|].
    apply no_close_app; [vm_compute; intuition discriminate|].
    now apply variant_no_close.
Qed.

Lemma collapsed_no_match (v rest : text) :
  is_variant v = true ->
  no_match_in cleanup_pattern (collapsed v) rest = true.
Proof.
  intro Hv. unfold collapsed.
  change (str ")" ++ [nl] ++ indent ++ str ".fetch_" ++ v)
    with (")"%char :: (nl :: indent ++ str ".fetch_" ++ v)).
  apply no_match_in_cons.
  - exact (cleanup_not_at_bind (str "fetch_" ++ v ++ rest)).
  - apply no_match_in_heads. intros c s Hc. apply cleanup_head. intros ->.
    revert Hc. change (nl :: indent ++ str ".fetch_" ++ v)
      with ((nl :: indent ++ str ".fetch_") ++ v).
    apply no_close_app; [vm_compute; intuition discriminate|].
    now apply variant_no_close.
Qed.

Lemma stray_site_triple_free (w1 w2 v rest : text) :
  own_lines w1 = true -> own_lines w2 = true -> is_variant v = true ->
  triple_free (stray_site w1 w2 v ++ rest) = triple_free rest.
Proof.
  intros H1 H2 Hv. rewrite stray_site_cons.
  destruct (own_lines_inv _ H1) as [A1 N1].
  destruct (own_lines_inv _ H2) as [A2 N2].
  assert (D : match_at cleanup_pattern
                (")"%char :: w2 ++ str ".fetch_" ++ v ++ rest) = None).
  { rewrite cleanup_scan. unfold scan_cleanup. lit. cbn [strip].
    rewrite Ascii.eqb_refl.
    change (w2 ++ "."%char :: str "fetch_" ++ v ++ rest)
      with (w2 ++ "."%char :: (str "fetch_" ++ v ++ rest)).
    rewrite take_while_run, drop_while_run by (assumption || reflexivity).
    rewrite N2. reflexivity. }
  cbn [triple_free starts_triple]. rewrite Ascii.eqb_refl.
  rewrite take_while_run, drop_while_run by (assumption || reflexivity).
  rewrite D, andb_false_r. cbn [negb andb].
  rewrite triple_free_skip by now apply space_no_close.
  cbn [triple_free starts_triple]. rewrite Ascii.eqb_refl.
  change (w2 ++ str ".fetch_" ++ v ++ rest)
    with (w2 ++ "."%char :: (str "fetch_" ++ v ++ rest)).
  rewrite drop_while_run by (assumption || reflexivity).
  rewrite cleanup_head by discriminate. rewrite andb_false_r. cbn [negb andb].
  change (w2 ++ "."%char :: str "fetch_" ++ v ++ rest)
    with (w2 ++ (str ".fetch_" ++ v) ++ rest).
  rewrite app_assoc. apply triple_free_skip.
  apply no_close_app; [now apply space_no_close|].
  apply no_close_app; [vm_compute; intuition discriminate|].
  now apply variant_no_close.
Qed.

(** The cleanup pattern matches in what step 2 returns exactly where the
    input held three closing parentheses on lines of their own before a
    fetch call. *)
Lemma step2_output_matches (t : text) :
  no_match cleanup_pattern (step2 t) = triple_free t.
Proof.
  remember (length t) as m eqn:Hm. revert t Hm.
  induction m as [m IH] using lt_wf_ind. intros t Hm.
  destruct t as [|c t]; [reflexivity|].
  destruct (match_at cleanup_pattern (c :: t)) as [[n g]|] eqn:E.
  - apply cleanup_shape in E as (w1 & w2 & v & rest & E & H1 & H2 & Hv & _ & _).
    rewrite E, step2_site, stray_site_triple_free by assumption.
    unfold no_match. rewrite no_match_in_app, app_nil_r.
    rewrite collapsed_no_match by assumption. cbn [andb].
    apply (IH (length rest)); [|reflexivity].
    rewrite Hm, E, length_app. unfold stray_site. rewrite !length_app.
    simpl. lia.
  - unfold step2 at 1. rewrite re_sub_pass by exact E. fold (step2 t).
    unfold no_match. cbn [no_match_in triple_free]. rewrite app_nil_r.
    fold (no_match cleanup_pattern (step2 t)).
    rewrite (IH (length t)) by (simpl in Hm; lia || reflexivity).
    destruct (starts_triple (c :: t)) eqn:S.
    + pose proof (triple_leaves_match _ _ S) as M.
      destruct (match_at cleanup_pattern (c :: step2 t)); [reflexivity|].
      now elim M.
    + destruct (match_at cleanup_pattern (c :: step2 t)) eqn:M; [|reflexivity].
      rewrite match_from_triple in S; [discriminate|exact E|].
      rewrite M. discriminate.
Qed.

Lemma subn_zero_no_match (r : regex) :
  (forall s n g, match_at r s = Some (n, g) -> 0 < n <= length s) ->
  forall s, subn_aux r s 0 = 0 -> no_match r s = true.
Proof.
  intros span s. unfold no_match. induction s as [|c s IH]; [reflexivity|].
  cbn [no_match_in]. rewrite app_nil_r.
  destruct (match_at r (c :: s)) as [[n g]|] eqn:E.
  - rewrite (@subn_hit r _ _ _ E (span _ _ _ E)). discriminate.
  - rewrite subn_pass by exact E. exact IH.
Qed.

Lemma step2_close_count (s : text) :
  occurrences ")" (step2 s) + collapses s = occurrences ")" s.
Proof.
  assert (K : forall s n g, match_at cleanup_pattern s = Some (n, g) ->
            occurrences ")" (cleanup_template g) + 1
            = occurrences ")" (firstn n s) + 0).
  { intros u n g E. apply cleanup_shape in E
      as (w1 & w2 & v & rest & -> & H1 & H2 & Hv & -> & ->).
    rewrite cleanup_template_groups, firstn_exact.
    destruct (@stray_site_parens w1 w2 v H1 H2 Hv) as (A & B & _). lia. }
  pose proof (@occurrences_through_sub cleanup_pattern cleanup_template
                cleanup_span ")" 0 1 K s).
  unfold step2, collapses. lia.
Qed.

(** Step 2 returns its own output unchanged exactly when its input held no
    such triple. *)
Lemma step2_twice (t : text) :
  step2 (step2 t) = step2 t <-> triple_free t = true.
Proof.
  rewrite <- step2_output_matches. split.
  - intro E. pose proof (step2_close_count (step2 t)) as C.
    rewrite E in C. apply (@subn_zero_no_match _ cleanup_span).
    unfold collapses in C. lia.
  - apply step2_no_match.
Qed.

(** *** Step 1 on its own output *)

Lemma no_s_in_class (p : ascii -> bool) (s : text) :
  p "s"%char = false -> all_of p s = true -> ~ In "s"%char s.
Proof.
  intros Hp Hs Hin. apply (@all_of_in p s "s"%char Hs) in Hin. congruence.
Qed.

Lemma step1_laid_out (l : list (text * site)) (post : text) :
  split_ok l post = true ->
  step1 (laid_out l post) = laid_out_bound l post
  /\ rewritten_sites (laid_out l post) = length l.
Proof.
  induction l as [|[gap c] l IH]; cbn [split_ok laid_out laid_out_bound].
  - intro H. split; [now apply step1_no_match|now apply sites_none].
  - intro H. apply andb_prop in H as [H H3]. apply andb_prop in H as [H1 H2].
    destruct (IH H3) as [E R]. unfold site_ok in H1. split.
    + rewrite step1_skip by assumption. unfold site_text at 1.
      rewrite step1_site by assumption. now rewrite E.
    + rewrite sites_skip by assumption. unfold site_text at 1.
      rewrite sites_site by assumption. now rewrite R.
Qed.

Lemma split_ok_cons (c : ascii) (l : list (text * site)) (post : text) :
  match_at pattern (c :: laid_out l post) = None ->
  split_ok l post = true ->
  exists l' post',
    c :: laid_out l post = laid_out l' post'
    /\ split_ok l' post' = true /\ length l' = length l.
Proof.
  destruct l as [|[gap d] l]; cbn [laid_out split_ok]; intros E H.
  - exists [], (c :: post). cbn [laid_out split_ok length].
    repeat split. unfold no_match. cbn [no_match_in].
    rewrite app_nil_r, E. exact H.
  - exists ((c :: gap, d) :: l), post. cbn [laid_out split_ok length].
    repeat split. apply andb_prop in H as [H H3].
    apply andb_prop in H as [H1 H2]. rewrite H1, H3, andb_true_r.
    cbn [andb]. now apply no_match_in_cons.
Qed.

Lemma reading_exists (content : text) :
  exists l post, content = laid_out l post /\ split_ok l post = true.
Proof.
  remember (length content) as m eqn:Hm. revert content Hm.
  induction m as [m IH] using lt_wf_ind. intros s Hm.
  destruct s as [|c s].
  - exists [], []. split; reflexivity.
  - destruct (match_at pattern (c :: s)) as [[n g]|] eqn:E.
    + apply pattern_shape in E
        as (ws1 & body & ws2 & p & ws3 & rest & Es & W & _ & _).
      assert (L : length rest < m).
      { rewrite Hm, Es, length_app. unfold call_site, query_part.
        rewrite !length_app. simpl. lia. }
      destruct (IH _ L rest eq_refl) as (l & post & El & Hl).
      exists (([], Site ws1 body ws2 p ws3) :: l), post.
      cbn [laid_out split_ok no_match_in app].
      unfold site_text, site_ok. cbn [site_ws1 site_body site_ws2
        site_param site_ws3]. rewrite <- El, W, Hl. now split.
    + destruct (IH (length s) ltac:(simpl in Hm; lia) s eq_refl)
        as (l & post & El & Hl).
      rewrite El in E.
      destruct (split_ok_cons c l post E Hl) as (l' & post' & E' & H' & _).
      exists l', post'. rewrite El. now split.
Qed.

Lemma not_dq_dq : not_dq dq = false.
Proof. reflexivity. Qed.

(** The first double quote of a text is where it is. *)
Lemma split_at_dq (a a' b b' : text) :
  a ++ dq :: b = a' ++ dq :: b' ->
  all_of not_dq a = true -> all_of not_dq a' = true -> a = a' /\ b = b'.
Proof.
  revert a'. induction a as [|x a IH]; intros [|y a'] E Ha Ha'.
  - injection E as ->. now split.
  - injection E as <- _. unfold all_of in Ha'. cbn [forallb] in Ha'.
    rewrite not_dq_dq in Ha'. discriminate.
  - injection E as -> _. unfold all_of in Ha. cbn [forallb] in Ha.
    rewrite not_dq_dq in Ha. discriminate.
  - injection E as -> E. unfold all_of in Ha, Ha'. cbn [forallb] in Ha, Ha'.
    apply andb_prop in Ha as [_ Ha]. apply andb_prop in Ha' as [_ Ha'].
    destruct (IH a' E Ha Ha') as [-> ->]. now split.
Qed.

Lemma dq_free (x : text) : occurrences dq x = 0 -> all_of not_dq x = true.
Proof.
  unfold occurrences, all_of. induction x as [|c x IH]; [reflexivity|].
  cbn [count_occ forallb]. destruct (ascii_dec c dq) as [->|N]; [discriminate|].
  intro H. rewrite (IH H), andb_true_r. unfold not_dq.
  now rewrite (eqb_neq_false N).
Qed.

Lemma query_part_dqs (ws1 body : text) :
  all_of is_space ws1 = true -> all_of not_dq body = true ->
  occurrences dq (query_part ws1 body) = 2.
Proof.
  intros H1 Hb. unfold query_part. rewrite !occurrences_app.
  rewrite (@occurrences_class is_space dq ws1 H1 eq_refl).
  rewrite (@occurrences_class not_dq dq body Hb eq_refl). reflexivity.
Qed.

Lemma call_site_dqs (ws1 body ws2 param ws3 : text) :
  well_formed ws1 body ws2 param ws3 = true ->
  occurrences dq (call_site ws1 body ws2 param ws3) = 2.
Proof.
  intro W. apply well_formed_inv in W as (H1 & Hb & H2 & Hp & _ & H3).
  unfold call_site. rewrite !occurrences_app, query_part_dqs by assumption.
  rewrite (@occurrences_class is_space dq ws2 H2 eq_refl).
  rewrite (@occurrences_class is_word dq param Hp eq_refl).
  rewrite (@occurrences_class is_space dq ws3 H3 eq_refl). reflexivity.
Qed.

Lemma opener_dq_free (x ws1 : text) :
  all_of not_dq x = true -> all_of is_space ws1 = true ->
  all_of not_dq (x ++ invocation ++ ws1 ++ str "r#") = true.
Proof.
  intros Hx H1. rewrite !all_of_app, Hx. cbn [andb].
  replace (all_of not_dq ws1) with true; [reflexivity|].
  symmetry. unfold all_of in *. apply forallb_forall. intros c Hc.
  rewrite forallb_forall in H1. specialize (H1 c Hc).
  unfold not_dq. destruct (Ascii.eqb_spec c dq) as [->|]; [discriminate H1|].
  reflexivity.
Qed.

Lemma query_part_split (x ws1 body rest : text) :
  x ++ query_part ws1 body ++ rest
  = (x ++ invocation ++ ws1 ++ str "r#") ++ dq :: body ++ dq :: "#"%char
      :: rest.
Proof. unfold query_part, invocation. now rewrite <- !app_assoc. Qed.

(** A match that starts ahead of a bound call, in text before it, ends
    ahead of the place where the bound call differs from its call site; it
    is a match of the input as well. *)
Lemma gap_match_back (x ws1 body ws2 param ws3 out inp : text) :
  well_formed ws1 body ws2 param ws3 = true ->
  match_at pattern (x ++ bound_call ws1 body param ++ out) <> None ->
  match_at pattern (x ++ call_site ws1 body ws2 param ws3 ++ inp) <> None.
Proof.
  intros W M.
  destruct (match_at pattern (x ++ bound_call ws1 body param ++ out))
    as [[n g]|] eqn:E; [clear M|now elim M].
  set (tb := str ")" ++ [nl] ++ indent ++ str ".bind(" ++ param ++ str ")").
  assert (Eb : x ++ bound_call ws1 body param ++ out
               = (x ++ query_part ws1 body) ++ tb ++ out).
  { unfold bound_call, tb. now rewrite <- !app_assoc. }
  assert (Ec : x ++ call_site ws1 body ws2 param ws3 ++ inp
               = (x ++ query_part ws1 body)
                 ++ str "," ++ ws2 ++ param ++ ws3 ++ str ")" ++ inp).
  { unfold call_site. now rewrite <- !app_assoc. }
  rewrite Eb in E. rewrite Ec.
  destruct (le_lt_dec n (length (x ++ query_part ws1 body))) as [L|L].
  - apply pattern_restrict in E; [|exact L].
    rewrite (pattern_extend _ _ E). discriminate.
  - exfalso. apply pattern_shape in E
      as (ws1' & body' & ws2' & p' & ws3' & r' & E & W' & -> & _).
    symmetry in E.
    destruct (@app_prefix_length _ _ _ _ E ltac:(lia)) as [u Eu].
    pose proof (call_site_dqs _ _ _ _ _ W') as D. rewrite Eu in D.
    pose proof (well_formed_inv _ _ _ _ _ W) as (H1 & Hb & _).
    pose proof (well_formed_inv _ _ _ _ _ W') as (H1' & Hb' & _).
    rewrite !occurrences_app, query_part_dqs in D by assumption.
    assert (Dx : all_of not_dq x = true) by (apply dq_free; lia).
    rewrite Eu, <- app_assoc in E. apply app_inv_head in E.
    assert (U : exists u', u = ")"%char :: u').
    { destruct u as [|c u'].
      - rewrite Eu, app_nil_r in L. lia.
      - unfold tb in E. injection E as -> _. now exists u'. }
    destruct U as [u' ->].
    unfold call_site in Eu. rewrite <- !app_assoc in Eu.
    pose proof (query_part_split [] ws1' body'
                  (str "," ++ ws2' ++ p' ++ ws3' ++ str ")")) as Q1.
    pose proof (query_part_split x ws1 body (")"%char :: u')) as Q2.
    cbn [app] in Q1.
    rewrite Q1, Q2 in Eu. apply split_at_dq in Eu as [_ Eu].
    + apply split_at_dq in Eu as [_ Eu]; [|assumption..].
      discriminate Eu.
    + exact (@opener_dq_free [] ws1' eq_refl H1').
    + now apply opener_dq_free.
Qed.

Lemma no_match_in_transfer (r : regex) (pre a b : text) :
  (forall x, match_at r (x ++ a) = None -> match_at r (x ++ b) = None) ->
  no_match_in r pre a = true -> no_match_in r pre b = true.
Proof.
  intro H. induction pre as [|c pre IH]; [reflexivity|].
  cbn [no_match_in].
  destruct (match_at r ((c :: pre) ++ a)) eqn:E; [discriminate|].
  rewrite (H _ E). exact IH.
Qed.

Lemma no_match_in_suffixes (r : regex) (s rest : text) :
  (forall s1 s2, s = s1 ++ s2 -> s2 <> [] -> match_at r (s2 ++ rest) = None) ->
  no_match_in r s rest = true.
Proof.
  induction s as [|c s IH]; intro H; [reflexivity|].
  cbn [no_match_in]. rewrite (H [] (c :: s)) by (reflexivity || discriminate).
  apply IH. intros s1 s2 E N. apply (H (c :: s1) s2); [|exact N].
  now rewrite E.
Qed.

Lemma count_zero_tail (x : ascii) (needle a b : text) :
  count (x :: needle) (a ++ b) = 0 -> count (x :: needle) b = 0.
Proof.
  induction a as [|c a IH]; [auto|].
  cbn [app]. rewrite count_step.
  destruct (starts_with (x :: needle) (c :: a ++ b)); [discriminate|exact IH].
Qed.

Lemma starts_with_more (needle a b : text) :
  starts_with needle a = true -> starts_with needle (a ++ b) = true.
Proof.
  revert a. induction needle as [|x needle IH]; intros a H; [reflexivity|].
  destruct a as [|c a]; [discriminate|]. cbn [app starts_with] in *.
  apply andb_prop in H as [-> H]. now rewrite IH.
Qed.

Lemma count_zero_head (x : ascii) (needle a b : text) :
  count (x :: needle) (a ++ b) = 0 -> count (x :: needle) a = 0.
Proof.
  induction a as [|c a IH]; [reflexivity|].
  cbn [app]. rewrite !count_step.
  destruct (starts_with (x :: needle) (c :: a)) eqn:E.
  - change (c :: a ++ b) with ((c :: a) ++ b).
    now rewrite (starts_with_more _ _ b E).
  - destruct (starts_with (x :: needle) (c :: a ++ b)); [discriminate|exact IH].
Qed.

Lemma count_zero_absent (x : ascii) (needle a b : text) :
  count (x :: needle) (a ++ (x :: needle) ++ b) <> 0.
Proof.
  intro H. apply count_zero_tail in H. rewrite count_here in H. discriminate.
Qed.

Lemma match_starts_with_invocation (s : text) :
  match_at pattern s <> None -> starts_with invocation s = true.
Proof.
  destruct (match_at pattern s) as [[n g]|] eqn:E; [intros _|now intros []].
  apply pattern_shape in E as (ws1 & body & ws2 & p & ws3 & r & -> & _).
  unfold call_site, query_part. rewrite <- !app_assoc.
  apply starts_with_app.
Qed.

(** The pattern does not match at the head of a bound call: a closing
    parenthesis stands where the comma stood. *)
Lemma bound_call_no_match (ws1 body param rest : text) :
  all_of is_space ws1 = true -> all_of not_dq body = true ->
  match_at pattern (bound_call ws1 body param ++ rest) = None.
Proof.
  intros H1 Hb.
  set (t5 := ")"%char :: nl :: indent ++ str ".bind(" ++ param ++ str ")"
             ++ rest).
  set (t3 := body ++ dq :: "#"%char :: t5).
  set (t1 := ws1 ++ "r"%char :: "#"%char :: dq :: t3).
  assert (ES : bound_call ws1 body param ++ rest = str "sqlx::query(" ++ t1).
  { unfold bound_call, query_part, t1, t3, t5. now rewrite <- !app_assoc. }
  rewrite pattern_scan, ES. unfold scan_call_site. rewrite strip_app.
  unfold t1 at 1. rewrite drop_while_run by (assumption || reflexivity).
  change ("r"%char :: "#"%char :: dq :: t3) with ((str "r#" ++ [dq]) ++ t3).
  rewrite strip_app.
  unfold t3 at 1. rewrite drop_while_run; [|assumption|reflexivity].
  change (dq :: "#"%char :: t5) with ((dq :: str "#") ++ t5).
  rewrite strip_app. reflexivity.
Qed.

(** A match that starts in the body of a literal, and takes the closing
    quote of the literal for its opening one, starts at an opener: the body
    ends in [r#]. *)
Lemma body_match_opener (b2 rest : text) :
  all_of not_dq b2 = true ->
  match_at pattern (b2 ++ dq :: rest) <> None ->
  exists u, b2 = u ++ str "r#".
Proof.
  intros Hb M.
  destruct (match_at pattern (b2 ++ dq :: rest)) as [[n g]|] eqn:E;
    [clear M|now elim M].
  apply pattern_shape in E
    as (ws1 & body & ws2 & p & ws3 & r & E & W & _ & _).
  apply well_formed_inv in W as (H1 & _).
  unfold call_site in E. rewrite <- !app_assoc in E.
  pose proof (query_part_split [] ws1 body
                (str "," ++ ws2 ++ p ++ ws3 ++ str ")" ++ r)) as Q.
  cbn [app] in Q. rewrite Q in E.
  apply split_at_dq in E as [E _];
    [|assumption|exact (@opener_dq_free [] ws1 eq_refl H1)].
  exists (invocation ++ ws1). rewrite E. now rewrite <- !app_assoc.
Qed.

Lemma word_no_invocation (p2 rest : text) :
  all_of is_word p2 = true ->
  match_at pattern (p2 ++ ")"%char :: rest) = None.
Proof.
  intro Hp.
  destruct (match_at pattern (p2 ++ ")"%char :: rest)) eqn:E; [|reflexivity].
  exfalso.
  assert (S : starts_with invocation (p2 ++ ")"%char :: rest) = true)
    by (apply match_starts_with_invocation; rewrite E; discriminate).
  rewrite starts_with_sep in S by (vm_compute; intuition discriminate).
  apply starts_with_prefix in S.
  assert (In ":"%char p2) by (rewrite S; vm_compute; tauto).
  apply (@all_of_in is_word p2 ":"%char Hp) in H. discriminate H.
Qed.

Ltac no_s :=
  apply no_match_in_heads;
  let c := fresh "c" in let s := fresh "s" in let Hc := fresh "Hc" in
  intros c s Hc; apply pattern_head; intros ->;
  revert Hc; vm_compute; intuition discriminate.

(** No match starts inside a bound call, when its call site did not hold
    an opener with a hash right behind it. *)
Lemma bound_call_closed (ws1 body ws2 param ws3 out : text) :
  well_formed ws1 body ws2 param ws3 = true ->
  count fence_clash (call_site ws1 body ws2 param ws3) = 0 ->
  no_match_in pattern (bound_call ws1 body param) out = true.
Proof.
  intros W C.
  pose proof (well_formed_inv _ _ _ _ _ W) as (H1 & Hb & _ & Hp & _ & _).
  assert (E : bound_call ws1 body param
              = "s"%char :: (tl invocation ++ ws1 ++ str "r#" ++ [dq])
                ++ body
                ++ (dq :: str "#)" ++ [nl] ++ indent ++ str ".bind(")
                ++ param ++ str ")").
  { unfold bound_call, query_part. rewrite <- !app_assoc. reflexivity. }
  rewrite E. apply no_match_in_cons.
  { change ("s"%char :: ((tl invocation ++ ws1 ++ str "r#" ++ [dq]) ++ body
              ++ (dq :: str "#)" ++ [nl] ++ indent ++ str ".bind(")
              ++ param ++ str ")") ++ out)
      with (("s"%char :: (tl invocation ++ ws1 ++ str "r#" ++ [dq]) ++ body
              ++ (dq :: str "#)" ++ [nl] ++ indent ++ str ".bind(")
              ++ param ++ str ")") ++ out).
    rewrite <- E. now apply bound_call_no_match. }
  rewrite !no_match_in_app. repeat (apply andb_true_intro; split).
  - no_s.
  - apply no_match_in_heads. intros c s Hc. apply pattern_head. intros ->.
    now apply (@no_s_in_class is_space ws1 eq_refl H1).
  - no_s.
  - no_s.
  - apply no_match_in_suffixes. intros b1 b2 Eb N2.
    match goal with |- match_at pattern (b2 ++ ?ctx) = None =>
      destruct (match_at pattern (b2 ++ ctx)) eqn:M; [|reflexivity];
      assert (X : exists rest, ctx = dq :: rest) by (eexists; reflexivity)
    end.
    destruct X as [rest X]. rewrite X in M.
    exfalso.
    assert (A2 : all_of not_dq b2 = true).
    { rewrite Eb, all_of_app in Hb. now apply andb_prop in Hb as [_ Hb]. }
    destruct (@body_match_opener b2 rest A2) as [u Eu];
      [rewrite M; discriminate|].
    apply (@count_zero_absent "r" (str "#" ++ [dq] ++ str "#")
             (invocation ++ ws1 ++ str "r#" ++ [dq] ++ b1 ++ u)
             (str "," ++ ws2 ++ param ++ ws3 ++ str ")")).
    rewrite <- C. f_equal. unfold call_site, query_part, invocation.
    rewrite Eb, Eu. rewrite <- !app_assoc. reflexivity.
  - no_s.
  - apply no_match_in_suffixes. intros p1 p2 Ep N2.
    rewrite Ep, all_of_app in Hp. apply andb_prop in Hp as [_ Hp].
    now apply word_no_invocation.
  - no_s.
Qed.

(** Step 1 leaves nothing for its own pattern when the buffer did not
    hold an opener with a hash right behind it: read call site by call
    site, no match starts in a stretch, none in a bound call. *)
Lemma laid_out_bound_closed (l : list (text * site)) (post : text) :
  split_ok l post = true ->
  count fence_clash (laid_out l post) = 0 ->
  no_match pattern (laid_out_bound l post) = true.
Proof.
  induction l as [|[gap c] l IH]; cbn [split_ok laid_out laid_out_bound].
  - auto.
  - intros H C. apply andb_prop in H as [H H3]. apply andb_prop in H as [H1 H2].
    unfold site_ok in H1. unfold no_match.
    rewrite !no_match_in_app, !app_nil_r.
    pose proof (count_zero_tail _ _ _ _ C) as C1.
    repeat (apply andb_true_intro; split).
    + revert H2. apply no_match_in_transfer. intros x N.
      destruct (match_at pattern
                  (x ++ site_bound c ++ laid_out_bound l post)) eqn:M;
        [|reflexivity].
      exfalso. apply (@gap_match_back x _ _ _ _ _
                        (laid_out_bound l post) (laid_out l post) H1).
      * unfold site_bound in M. rewrite M. discriminate.
      * exact N.
    + apply bound_call_closed with (ws2 := site_ws2 c) (ws3 := site_ws3 c);
        [exact H1|].
      exact (count_zero_head _ _ _ _ C1).
    + apply IH; [exact H3|]. exact (count_zero_tail _ _ _ _ C1).
Qed.

Lemma step1_closed (content : text) :
  count fence_clash content = 0 -> no_match pattern (step1 content) = true.
Proof.
  intro C. destruct (reading_exists content) as (l & post & -> & H).
  destruct (step1_laid_out l post H) as [-> _].
  now apply laid_out_bound_closed.
Qed.

(** *** Step 2 makes no call site *)

(** What step 2 returns holds its first double quote where the input
    held its first one. *)
Lemma step2_quote_back (s b z : text) :
  all_of not_dq b = true -> step2 s = b ++ dq :: z ->
  exists b' s', s = b' ++ dq :: s' /\ all_of not_dq b' = true
                /\ step2 s' = z.
Proof.
  remember (length s) as m eqn:Hm. revert s b Hm.
  induction m as [m IH] using lt_wf_ind. intros s b Hm Hb E.
  destruct s as [|c s]; [destruct b; discriminate E|].
  destruct (match_at cleanup_pattern (c :: s)) as [[n g]|] eqn:M.
  - apply cleanup_shape in M
      as (w1 & w2 & v & rest & Es & H1 & H2 & Hv & _ & _).
    rewrite Es, step2_site in E by assumption.
    assert (Dc : all_of not_dq (collapsed v) = true)
      by (destruct (is_variant_cases _ Hv) as [-> | ->]; reflexivity).
    assert (Ds : all_of not_dq (stray_site w1 w2 v) = true).
    { unfold stray_site. rewrite !all_of_app.
      destruct (own_lines_inv _ H1) as [A1 _].
      destruct (own_lines_inv _ H2) as [A2 _].
      assert (Q : forall w, all_of is_space w = true ->
                            all_of not_dq w = true).
      { intros w Hw. unfold all_of in *. apply forallb_forall. intros x Hx.
        rewrite forallb_forall in Hw. specialize (Hw x Hx). unfold not_dq.
        destruct (Ascii.eqb_spec x dq) as [->|]; [discriminate Hw|].
        reflexivity. }
      rewrite (Q _ A1), (Q _ A2).
      destruct (is_variant_cases _ Hv) as [-> | ->]; reflexivity. }
    symmetry in E.
    destruct (@prefix_before_foreign b dq z (collapsed v) (step2 rest) E)
      as [u Eu].
    { intro F. apply (@all_of_in not_dq _ dq Dc) in F. discriminate F. }
    rewrite Eu, <- app_assoc in E. apply app_inv_head in E.
    rewrite Eu, all_of_app in Hb. apply andb_prop in Hb as [_ Hu].
    destruct (IH (length rest)) with (s := rest) (b := u)
      as (b' & s' & Er & Hb' & Ez); [|reflexivity|exact Hu|now symmetry|].
    { rewrite Hm, Es, length_app. unfold stray_site. rewrite !length_app.
      simpl. lia. }
    exists (stray_site w1 w2 v ++ b'), s'. rewrite Es, Er, <- app_assoc.
    split; [reflexivity|]. split; [|exact Ez].
    now rewrite all_of_app, Ds, Hb'.
  - unfold step2 in E. rewrite re_sub_pass in E by exact M.
    fold (step2 s) in E. destruct b as [|y b].
    + injection E as -> E. exists [], s. now split.
    + injection E as -> E. unfold all_of in Hb. cbn [forallb] in Hb.
      apply andb_prop in Hb as [Hy Hb].
      destruct (IH (length s)) with (s := s) (b := b)
        as (b' & s' & Er & Hb' & Ez);
        [simpl in Hm; lia|reflexivity|exact Hb|exact E|].
      exists (y :: b'), s'. rewrite Er. split; [reflexivity|].
      split; [|exact Ez]. unfold all_of. cbn [forallb]. now rewrite Hy.
Qed.

(** Where the pattern of step 1 matches what step 2 returns, it matched
    what step 2 was given. *)
Lemma step2_match_back (t : text) :
  match_at pattern (step2 t) <> None -> match_at pattern t <> None.
Proof.
  intro M.
  destruct (match_at pattern (step2 t)) as [[n g]|] eqn:E;
    [clear M|now elim M].
  apply pattern_shape in E
    as (ws1 & body & ws2 & p & ws3 & r & E & W & _ & _).
  pose proof (well_formed_inv _ _ _ _ _ W) as (H1 & Hb & H2 & Hp & Np & H3).
  unfold call_site in E. rewrite <- !app_assoc in E.
  pose proof (query_part_split [] ws1 body
                (str "," ++ ws2 ++ p ++ ws3 ++ str ")" ++ r)) as Q.
  cbn [app] in Q. rewrite Q in E. clear Q.
  apply step2_prefix_back in E as (t1 & -> & E).
  2:{ apply no_close_app; [vm_compute; intuition discriminate|].
      apply no_close_app; [now apply space_no_close|].
      vm_compute; intuition discriminate. }
  destruct t1 as [|x t1]; [discriminate E|].
  destruct (ascii_dec x ")") as [->|Nx].
  { destruct (step2_keeps_close t1) as [z Ez].
    change (str ")" ++ t1) with (")"%char :: t1) in Ez. rewrite Ez in E.
    discriminate E. }
  rewrite step2_pass in E by exact Nx. injection E as -> E.
  apply step2_quote_back in E as (b' & t2 & -> & Hb' & E); [|exact Hb].
  assert (E' : step2 t2 = (str "#," ++ ws2 ++ p ++ ws3) ++ ")"%char :: r)
    by (rewrite <- !app_assoc; exact E).
  clear E. apply step2_prefix_back in E' as (t3 & -> & E).
  2:{ apply no_close_app; [vm_compute; intuition discriminate|].
      apply no_close_app; [now apply space_no_close|].
      apply no_close_app; [|now apply space_no_close].
      now apply (@no_close_in_class is_word p eq_refl). }
  destruct t3 as [|y t3]; [discriminate E|].
  destruct (step2_head y t3) as [z Ez]. rewrite Ez in E. injection E as -> _.
  replace ((invocation ++ ws1 ++ str "r#") ++ dq :: b' ++ dq ::
           (str "#," ++ ws2 ++ p ++ ws3) ++ ")"%char :: t3)
    with (call_site ws1 b' ws2 p ws3 ++ t3).
  - rewrite pattern_site; [discriminate|].
    unfold well_formed. rewrite H1, Hb', H2, Hp, H3. cbn [andb].
    destruct p; [now elim Np|reflexivity].
  - unfold call_site, query_part, invocation. rewrite <- !app_assoc.
    reflexivity.
Qed.

Lemma step2_keeps_closed (t : text) :
  no_match pattern t = true -> no_match pattern (step2 t) = true.
Proof.
  remember (length t) as m eqn:Hm. revert t Hm.
  induction m as [m IH] using lt_wf_ind. intros t Hm N.
  destruct t as [|c t]; [reflexivity|].
  destruct (match_at cleanup_pattern (c :: t)) as [[n g]|] eqn:M.
  - apply cleanup_shape in M
      as (w1 & w2 & v & rest & Es & H1 & H2 & Hv & _ & _).
    rewrite Es, step2_site by assumption.
    unfold no_match in *. rewrite no_match_in_app, app_nil_r.
    apply andb_true_intro. split.
    + apply no_match_in_heads. intros x s Hx. apply pattern_head. intros ->.
      revert Hx. unfold collapsed.
      destruct (is_variant_cases _ Hv) as [-> | ->];
        vm_compute; intuition discriminate.
    + apply (IH (length rest)); [|reflexivity|].
      * rewrite Hm, Es, length_app. unfold stray_site. rewrite !length_app.
        simpl. lia.
      * rewrite Es, no_match_in_app in N. now apply andb_prop in N as [_ N].
  - unfold no_match in N. cbn [no_match_in] in N. rewrite app_nil_r in N.
    destruct (match_at pattern (c :: t)) eqn:P; [discriminate|].
    pose proof (step2_match_back (c :: t)) as B.
    unfold step2 in B |- *. rewrite re_sub_pass in B |- * by exact M.
    unfold no_match. cbn [no_match_in]. rewrite app_nil_r.
    destruct (match_at pattern (c :: re_sub cleanup_pattern cleanup_template t))
      eqn:Q.
    + exfalso. apply B; [discriminate|exact P].
    + apply (IH (length t)); [simpl in Hm; lia|reflexivity|exact N].
Qed.

Lemma rewrite_closed (content : text) :
  count fence_clash content = 0 ->
  no_match pattern (fst (rewrite content)) = true.
Proof.
  intro C. rewrite rewrite_fst. now apply step2_keeps_closed, step1_closed.
Qed.

(** *** The transformation on its own output *)

(** C3, as stated, fails: step 2 is not idempotent.  Of three closing
    parentheses on lines of their own, the first pass collapses the last
    two, which leaves the first one in front of a new match. *)
Lemma C3_counterexample :
  let buf := str ")" ++ [nl] ++ str ")" ++ [nl] ++ str ")" ++ [nl]
             ++ str ".fetch_one" in
  let once := fst (rewrite buf) in
  no_match pattern once = true
  /\ once = str ")" ++ [nl] ++ str ")" ++ [nl] ++ indent ++ str ".fetch_one"
  /\ fst (rewrite once) = str ")" ++ [nl] ++ indent ++ str ".fetch_one"
  /\ fst (rewrite once) <> once.
Proof. vm_compute. repeat split; try reflexivity. discriminate. Qed.

(** The premise under which C3 speaks is not a fact about the code: a
    literal whose body ends in an opener of its own leaves, once its call
    site is bound, a text the pattern of step 1 matches again, from inside
    the body.  The second run then adds a second [.bind(]. *)
Lemma nested_opener_matched_again :
  let buf := str "sqlx::query(r#" ++ [dq] ++ str "sqlx::query(r#" ++ [dq]
             ++ str "#, p) " ++ [dq] ++ str "#, q)" in
  let once := fst (rewrite buf) in
  once = str "sqlx::query(r#" ++ [dq] ++ str "sqlx::query(r#" ++ [dq]
         ++ str "#)" ++ [nl] ++ indent ++ str ".bind(p) " ++ [dq]
         ++ str "#, q)"
  /\ no_match pattern once = false
  /\ snd (rewrite buf) = 1
  /\ snd (rewrite once) = 2.
Proof. vm_compute. repeat split. Qed.

(** C3 (amended).  The pattern of step 1 matches nowhere in the output
    of a run whose input nowhere held the opener of a raw string with a hash
    right behind it.  Given that it matches nowhere in that output: step 1
    of a second run returns the output as it is, and the count of the
    second run is the count of the first, so that no second [.bind(] comes
    in.  The second run returns the output of the first unchanged exactly
    when the text the first run handed to step 2 held no three closing
    parentheses on lines of their own before a fetch call; where it held
    them, the first run has collapsed the last two, and the second run
    collapses again. *)
Theorem C3_second_run (content : text) :
  (count fence_clash content = 0 ->
   no_match pattern (fst (rewrite content)) = true)
  /\ (no_match pattern (fst (rewrite content)) = true ->
      step1 (fst (rewrite content)) = fst (rewrite content)
      /\ snd (rewrite (fst (rewrite content))) = snd (rewrite content)
      /\ (rewrite (fst (rewrite content)) = rewrite content
          <-> triple_free (step1 content) = true)).
Proof.
  split; [apply rewrite_closed|].
  intro H. pose proof (@step1_no_match _ H) as E.
  split; [exact E|]. split.
  - unfold rewrite at 1. cbn [snd]. rewrite E, step2_count. reflexivity.
  - rewrite <- step2_twice. unfold rewrite at 1. rewrite E.
    rewrite rewrite_fst. split.
    + intro P. apply (f_equal fst) in P. exact P.
    + intro P. unfold rewrite. now rewrite P.
Qed.

Lemma C3_witness :
  let content := call_site [] (str "SELECT 1") (str " ") (str "tool") []
                 ++ [nl] ++ str ")" ++ [nl] ++ str ".fetch_one(&pool)" in
  count fence_clash content = 0
  /\ triple_free (step1 content) = true
  /\ rewrite (fst (rewrite content)) = rewrite content.
Proof.
  intro content.
  assert (C : count fence_clash content = 0) by (vm_compute; reflexivity).
  assert (T : triple_free (step1 content) = true)
    by (vm_compute; reflexivity).
  split; [exact C|]. split; [exact T|].
  pose proof (proj1 (C3_second_run content) C) as H.
  exact (proj2 (proj2 (proj2 (proj2 (C3_second_run content) H))) T).
Defined.

(** ** The script's runs *)

Lemma paths_differ : String.eqb backup_path file_path = false.
Proof. reflexivity. Qed.

Lemma put_other (fs : path -> option data) (c : data) :
  put fs backup_path c file_path = fs file_path.
Proof. unfold put. now rewrite String.eqb_sym, paths_differ. Qed.

Lemma set_bit_other (bits : path -> bool) (b : bool) :
  set_bit bits backup_path b file_path = bits file_path.
Proof. unfold set_bit. now rewrite String.eqb_sym, paths_differ. Qed.

(** What [fix_sqlx_syntax] does, by what it finds at [p]. *)
Lemma fix_sqlx_syntax_run (p : path) (w : world) :
  fix_sqlx_syntax p w
  = match files w p with
    | None => (w, None)
    | Some (Binary _) => (emit (Opened p) w, None)
    | Some (Text t) =>
        if locked w p then (emit (Opened p) w, None)
        else
          let w' := World (put (files w) p (Text (fst (rewrite t))))
                      (locked w) (foreign w) (console w)
                      (log w ++ [Opened p; Written p (fst (rewrite t))]) in
          if console w
          then (World (files w') (locked w') (foreign w') (console w')
                  (log w' ++ [Printed (FixedSyntax p);
                              Printed (FixedQueries (snd (rewrite t)))]),
                Some tt)
          else (w', None)
    end.
Proof.
  unfold fix_sqlx_syntax, bind, read_text, write_text, print, emit.
  destruct (files w p) as [[t|b]|]; [|reflexivity..].
  cbn [files locked foreign console log].
  destruct (locked w p); [reflexivity|].
  cbn [files locked foreign console log has_symbol andb].
  destruct (console w); cbn [negb files locked foreign console log];
    rewrite <- ?app_assoc; reflexivity.
Qed.

(** The ways a run of the script can go, by what the store allows. *)
Lemma main_run (fs : path -> option data) (lk fo : path -> bool)
  (con : bool) :
  main (World fs lk fo con [])
  = match fs file_path with
    | None => (World fs lk fo con [], None)
    | Some c =>
        if lk backup_path then (World fs lk fo con [], None)
        else if chmod_refused (World fs lk fo con []) backup_path
        then (World (put fs backup_path c) lk fo con
                [Copied file_path backup_path], None)
        else
          let lk' := set_bit lk backup_path (lk file_path) in
          let fo' := set_bit fo backup_path false in
          if negb con
          then (World (put fs backup_path c) lk' fo' con
                  [Copied file_path backup_path], None)
          else
            match c with
            | Binary _ =>
                (World (put fs backup_path c) lk' fo' con
                   [Copied file_path backup_path;
                    Printed (BackupCreated backup_path);
                    Opened file_path], None)
            | Text t =>
                if lk file_path
                then (World (put fs backup_path c) lk' fo' con
                        [Copied file_path backup_path;
                         Printed (BackupCreated backup_path);
                         Opened file_path], None)
                else (World (put (put fs backup_path c) file_path
                               (Text (fst (rewrite t)))) lk' fo' con
                        [Copied file_path backup_path;
                         Printed (BackupCreated backup_path);
                         Opened file_path;
                         Written file_path (fst (rewrite t));
                         Printed (FixedSyntax file_path);
                         Printed (FixedQueries (snd (rewrite t)));
                         Printed NowBuild],
                      Some tt)
            end
    end.
Proof.
  unfold main. unfold bind at 1 2 3. unfold shutil_copy.
  cbn [files locked foreign console log].
  destruct (fs file_path) as [c|] eqn:F; [|reflexivity].
  destruct (lk backup_path); [reflexivity|].
  destruct (chmod_refused (World fs lk fo con []) backup_path); [reflexivity|].
  cbn [app]. unfold print at 1. cbn [has_symbol andb console].
  destruct con; cbn [negb]; [|reflexivity].
  rewrite fix_sqlx_syntax_run. unfold emit.
  cbn [files locked foreign console log app].
  rewrite put_other, F, set_bit_other.
  destruct c as [t|b]; [|reflexivity].
  destruct (lk file_path); [reflexivity|].
  cbn [files locked foreign console log app]. unfold print, emit.
  cbn [has_symbol andb files locked foreign console log app]. reflexivity.
Qed.

Lemma put_same (fs : path -> option data) (p : path) (c : data) :
  put fs p c p = Some c.
Proof. unfold put. now rewrite String.eqb_refl. Qed.

Lemma put_backup (fs : path -> option data) (c d : data) :
  put (put fs backup_path c) file_path d backup_path = Some c.
Proof. unfold put. now rewrite paths_differ, String.eqb_refl. Qed.

(** A run that stops before the target is written: the log holds no
    write to it, and the backup, if the copy got that far, holds the
    original. *)
Ltac stops_early F :=
  cbn [fst log files writes_to overwrites app];
  rewrite ?paths_differ, ?put_other, ?put_same, ?F;
  repeat split; try contradiction; try congruence;
  try (intros ? H; repeat (destruct H as [H|H]; try discriminate H);
       contradiction).

(** C9.  In every run of the script, whatever the file store allows:
    each event that changes the target file comes after the copy to the
    backup path, the target path with [.bak2] appended, in the log; once the
    target has been written, or differs from what it was, the backup path
    holds the original content of the target, which therefore existed. *)
Theorem C9_backup_before_write (fs : path -> option data)
  (lk fo : path -> bool) (con : bool) :
  (forall before,
      In before (writes_to file_path []
                   (log (fst (main (World fs lk fo con []))))) ->
      existsb (is_copy file_path backup_path) before = true)
  /\ (forall c,
        In (Written file_path c) (log (fst (main (World fs lk fo con [])))) ->
        files (fst (main (World fs lk fo con []))) backup_path = fs file_path
        /\ fs file_path <> None)
  /\ (files (fst (main (World fs lk fo con []))) file_path <> fs file_path ->
      files (fst (main (World fs lk fo con []))) backup_path = fs file_path).
Proof.
  rewrite main_run.
  destruct (fs file_path) as [c|] eqn:F.
  2:{ cbn [fst log files writes_to]. rewrite F.
      repeat split; try contradiction; congruence. }
  destruct (lk backup_path).
  { cbn [fst log files writes_to]. rewrite F.
    repeat split; try contradiction; congruence. }
  destruct (chmod_refused (World fs lk fo con []) backup_path);
    [stops_early F|].
  cbv zeta. destruct con; cbn [negb]; [|stops_early F].
  destruct c as [t|b]; [|stops_early F].
  destruct (lk file_path); [stops_early F|].
  cbn [fst log files writes_to overwrites app].
  rewrite paths_differ, String.eqb_refl, put_backup.
  split; [|split].
  - intros before [<-|[]]. cbn [existsb is_copy].
    now rewrite !String.eqb_refl.
  - intros c0 _. split; [reflexivity|discriminate].
  - intros _. reflexivity.
Qed.

(** ** The whole script on one store

    Three call sites, the middle one with two parameters: the two
    well-formed ones come out bound, the middle one as it was, the count is
    2 and the backup holds the original. *)
Example end_to_end :
  let a := call_site [] (str "SELECT 1") (str " ") (str "a") [] in
  let b := odd_call [] (str "SELECT 2") (str " ") (str "b") [] ","
           ++ str " c)" in
  let c := call_site [nl] (str "SELECT 3") [nl] (str "c") [nl] in
  let orig := a ++ [nl] ++ b ++ [nl] ++ c in
  let fs := fun q => if String.eqb q file_path then Some (Text orig)
                     else None in
  let w := fst (main (World fs (fun _ => false) (fun _ => false) true [])) in
  files w file_path
  = Some (Text (bound_call [] (str "SELECT 1") (str "a") ++ [nl] ++ b ++ [nl]
                ++ bound_call [nl] (str "SELECT 3") (str "c")))
  /\ files w backup_path = Some (Text orig)
  /\ In (Printed (FixedQueries 2)) (log w).
Proof.
  vm_compute. split; [reflexivity|]. split; [reflexivity|]. tauto.
Qed.

(** * Further properties of the two passes *)

(** ** Parentheses through the two passes *)

(** Step 1 adds one opening and one closing parenthesis for each call
    site it rewrites, and takes none away: it keeps the parentheses of the
    buffer in balance. *)
Theorem X_step1_parentheses (content : text) :
  occurrences "(" (step1 content)
  = occurrences "(" content + rewritten_sites content
  /\ occurrences ")" (step1 content)
     = occurrences ")" content + rewritten_sites content.
Proof.
  assert (K : forall c, c = "("%char \/ c = ")"%char ->
            forall s n g, match_at pattern s = Some (n, g) ->
              occurrences c (replace_query g) + 0
              = occurrences c (firstn n s) + 1).
  { intros c Hc s n g E. apply pattern_shape in E
      as (ws1 & body & ws2 & p & ws3 & rest & -> & W & -> & ->).
    rewrite replace_query_groups, firstn_exact.
    destruct (@call_site_parens ws1 body ws2 p ws3 W) as [A B].
    destruct Hc as [-> | ->]; lia. }
  unfold step1, rewritten_sites. split.
  - pose proof (@occurrences_through_sub pattern replace_query pattern_span
                  "(" 1 0 (K _ (or_introl eq_refl)) content). lia.
  - pose proof (@occurrences_through_sub pattern replace_query pattern_span
                  ")" 1 0 (K _ (or_intror eq_refl)) content). lia.
Qed.

(** Step 2 changes white space and closing parentheses only: with these
    taken out, the buffer reads the same before and after.  Each collapse
    costs exactly one closing parenthesis, and no opening one. *)
Theorem X_step2_drops_one_parenthesis (content : text) :
  filter solid (step2 content) = filter solid content
  /\ occurrences ")" (step2 content) + collapses content
     = occurrences ")" content
  /\ occurrences "(" (step2 content) = occurrences "(" content.
Proof.
  unfold step2, collapses. split; [|split].
  - apply (@filter_through_sub cleanup_pattern cleanup_template cleanup_span).
    intros s n g E. apply cleanup_shape in E
      as (w1 & w2 & v & rest & -> & H1 & H2 & Hv & -> & ->).
    rewrite cleanup_template_groups, firstn_exact. symmetry.
    now apply stray_site_parens.
  - assert (K : forall s n g, match_at cleanup_pattern s = Some (n, g) ->
              occurrences ")" (cleanup_template g) + 1
              = occurrences ")" (firstn n s) + 0).
    { intros s n g E. apply cleanup_shape in E
        as (w1 & w2 & v & rest & -> & H1 & H2 & Hv & -> & ->).
      rewrite cleanup_template_groups, firstn_exact.
      destruct (@stray_site_parens w1 w2 v H1 H2 Hv) as (A & B & _). lia. }
    pose proof (@occurrences_through_sub cleanup_pattern cleanup_template
                  cleanup_span ")" 0 1 K content). lia.
  - assert (K : forall s n g, match_at cleanup_pattern s = Some (n, g) ->
              occurrences "(" (cleanup_template g) + 0
              = occurrences "(" (firstn n s) + 0).
    { intros s n g E. apply cleanup_shape in E
        as (w1 & w2 & v & rest & -> & H1 & H2 & Hv & -> & ->).
      rewrite cleanup_template_groups, firstn_exact.
      destruct (@stray_site_parens w1 w2 v H1 H2 Hv) as (_ & _ & A & B & _). lia. }
    pose proof (@occurrences_through_sub cleanup_pattern cleanup_template
                  cleanup_span "(" 0 0 K content). lia.
Qed.

(** ** The two patterns, exactly *)

(** The pattern of step 1 matches at the head of a text exactly when the
    text begins with a well-formed call site; the match then spans the call
    site, group 1 is the invocation with its raw string literal and group 2
    the parameter.  Backtracking never finds another reading. *)
Theorem X_pattern_matches_call_sites (s : text) (n : nat) (g : groups) :
  match_at pattern s = Some (n, g) <->
  exists ws1 body ws2 param ws3 rest,
    s = call_site ws1 body ws2 param ws3 ++ rest
    /\ well_formed ws1 body ws2 param ws3 = true
    /\ n = length (call_site ws1 body ws2 param ws3)
    /\ g = [(2, param); (1, query_part ws1 body)].
Proof.
  split; [apply pattern_shape|].
  intros (ws1 & body & ws2 & p & ws3 & rest & -> & W & -> & ->).
  now apply pattern_site.
Qed.

(** The cleanup pattern matches at the head of a text exactly when the
    text begins with a closing parenthesis, white space that holds a line
    feed, a second closing parenthesis, white space that holds a line feed,
    and [.fetch_one] or [.fetch_all]; group 1 is the name of the call. *)
Theorem X_cleanup_matches_stray_sites (s : text) (n : nat) (g : groups) :
  match_at cleanup_pattern s = Some (n, g) <->
  exists w1 w2 v rest,
    s = stray_site w1 w2 v ++ rest
    /\ own_lines w1 = true /\ own_lines w2 = true /\ is_variant v = true
    /\ n = length (stray_site w1 w2 v)
    /\ g = [(1, str "fetch_" ++ v)].
Proof.
  split; [apply cleanup_shape|].
  intros (w1 & w2 & v & rest & -> & H1 & H2 & Hv & -> & ->).
  now apply cleanup_site.
Qed.

(** Step 2 neither adds nor removes an occurrence of [.bind(]. *)
Theorem X_step2_keeps_markers (content : text) :
  count bind_marker (step2 content) = count bind_marker content.
Proof. apply step2_count. Qed.

(** ** Buffers a pass leaves alone *)

Lemma subn_zero_id (r : regex) (repl : groups -> text) :
  (forall s n g, match_at r s = Some (n, g) -> 0 < n <= length s) ->
  forall s, subn_aux r s 0 = 0 -> re_sub r repl s = s.
Proof.
  intros span s. induction s as [|c s IH]; [reflexivity|].
  destruct (match_at r (c :: s)) as [[n g]|] eqn:E.
  - rewrite (@subn_hit r _ _ _ E (span _ _ _ E)). discriminate.
  - rewrite subn_pass, re_sub_pass by exact E. intro H. f_equal. auto.
Qed.

Lemma count_skip (x : ascii) (needle w t : text) :
  ~ In x w -> count (x :: needle) (w ++ t) = count (x :: needle) t.
Proof.
  induction w as [|c w IH]; intro H; [reflexivity|].
  simpl app. rewrite count_other.
  - apply IH. intro F. apply H. now right.
  - intro F. apply H. now left.
Qed.

Lemma original_count_cons (c : ascii) (s : text) :
  original_count s <= original_count (c :: s).
Proof.
  unfold original_count.
  change (str "sqlx::query(") with ("s"%char :: str "qlx::query(").
  rewrite count_step.
  destruct (starts_with _ (c :: s)) eqn:W; [|lia].
  cbn [starts_with] in W. apply andb_prop in W as [_ W].
  apply starts_with_prefix in W.
  set (t := skipn (length (str "qlx::query(")) s) in *.
  rewrite W at 1. rewrite count_skip; [lia|].
  vm_compute. intuition discriminate.
Qed.

Lemma original_count_app (a b : text) :
  original_count b <= original_count (a ++ b).
Proof.
  induction a as [|c a IH]; [simpl; lia|].
  simpl app. etransitivity; [exact IH|apply original_count_cons].
Qed.

Lemma original_count_site (ws1 body ws2 param ws3 rest : text) :
  S (original_count rest)
  <= original_count (call_site ws1 body ws2 param ws3 ++ rest).
Proof.
  unfold call_site, query_part. rewrite <- !app_assoc.
  unfold original_count at 2.
  change (str "sqlx::query(") with ("s"%char :: str "qlx::query(") at 1 2.
  rewrite count_here. apply le_n_S.
  change (count ("s"%char :: str "qlx::query(")) with original_count.
  rewrite !app_assoc. apply original_count_app.
Qed.

(** The occurrences of [sqlx::query(] in the input, which the source
    counts into [original_count] and never uses, bound the call sites
    step 1 rewrites; a buffer without the invocation is left as it is. *)
Theorem X_rewrites_bounded_by_invocations (content : text) :
  rewritten_sites content <= original_count content
  /\ (original_count content = 0 -> step1 content = content).
Proof.
  assert (B : rewritten_sites content <= original_count content).
  { remember (length content) as m eqn:Hm. revert content Hm.
    induction m as [m IH] using lt_wf_ind. intros s Hm.
    destruct s as [|c s]; [cbn; lia|].
    destruct (match_at pattern (c :: s)) as [[n g]|] eqn:E.
    - apply pattern_shape in E
        as (ws1 & body & ws2 & p & ws3 & rest & Es & W & _ & _).
      rewrite Es, sites_site by assumption.
      pose proof (original_count_site ws1 body ws2 p ws3 rest).
      assert (L : length rest < m).
      { rewrite Hm, Es, length_app. unfold call_site, query_part.
        rewrite !length_app. simpl. lia. }
      pose proof (IH _ L rest eq_refl). lia.
    - unfold rewritten_sites. rewrite subn_pass by exact E.
      pose proof (IH (length s) ltac:(simpl in Hm; lia) s eq_refl) as I.
      unfold rewritten_sites in I.
      pose proof (original_count_cons c s). lia. }
  split; [exact B|]. intro Z. unfold step1.
  apply (@subn_zero_id pattern replace_query pattern_span).
  unfold rewritten_sites in B. lia.
Qed.

Lemma no_nl_no_match (pre : text) :
  ~ In nl pre -> no_match cleanup_pattern pre = true.
Proof.
  unfold no_match. induction pre as [|c pre IH]; intro H; [reflexivity|].
  cbn [no_match_in].
  destruct (match_at cleanup_pattern ((c :: pre) ++ [])) as [[n g]|] eqn:E.
  - exfalso. apply cleanup_shape in E
      as (w1 & w2 & v & rest & Es & H1 & _).
    apply own_lines_inv in H1 as [_ N]. apply H.
    rewrite app_nil_r in Es. rewrite Es. unfold stray_site.
    apply in_or_app. left. apply in_or_app. right.
    apply in_or_app. left.
    unfold has_nl in N. apply existsb_exists in N as (x & Hx & Ex).
    apply Ascii.eqb_eq in Ex. now subst x.
  - apply IH. intro F. apply H. now right.
Qed.

(** Step 2 acts across lines only: a buffer without a line feed, or
    without a closing parenthesis, comes out as it went in. *)
Theorem X_step2_leaves_single_lines (content : text) :
  ~ In nl content \/ ~ In ")"%char content -> step2 content = content.
Proof.
  intros [H|H].
  - apply step2_no_match. now apply no_nl_no_match.
  - rewrite <- (app_nil_r content) at 1.
    rewrite step2_no_close by exact H. now rewrite app_nil_r.
Qed.

Lemma X_step2_leaves_single_lines_witness :
  step2 (str "f(a).fetch_one(b)") = str "f(a).fetch_one(b)".
Proof.
  apply X_step2_leaves_single_lines. left. vm_compute. intuition discriminate.
Defined.

(** ** The two passes together *)

(** Step 1 leaves nothing for its own pattern to match, when the buffer
    nowhere held the opener of a raw string with a hash right behind it:
    applied to its own output it rewrites no call site and returns that
    output as it is.  A second pass adds no second [.bind(]. *)
Theorem X_step1_second_pass (content : text) :
  count fence_clash content = 0 ->
  no_match pattern (step1 content) = true
  /\ rewritten_sites (step1 content) = 0
  /\ step1 (step1 content) = step1 content.
Proof.
  intro C. pose proof (step1_closed _ C) as H.
  split; [exact H|]. split; [now apply sites_none|now apply step1_no_match].
Qed.

Lemma X_step1_second_pass_witness :
  let content := str "let r = "
                 ++ call_site [] (str "SELECT 1") (str " ") (str "tool") []
                 ++ str ";" in
  step1 (step1 content) = step1 content.
Proof.
  intro content.
  assert (C : count fence_clash content = 0) by (vm_compute; reflexivity).
  exact (proj2 (proj2 (@X_step1_second_pass content C))).
Defined.

Lemma step1_no_s (a b : text) :
  ~ In "s"%char a -> step1 (a ++ b) = a ++ step1 b.
Proof.
  induction a as [|c a IH]; intro H; [reflexivity|].
  simpl app. unfold step1 at 1. rewrite re_sub_pass.
  - f_equal. apply IH. intro F. apply H. now right.
  - apply pattern_head. intros ->. apply H. now left.
Qed.

(** The case step 2 is written for.  A well-formed call site, then a
    stray closing parenthesis on a line of its own, then [.fetch_one] or
    [.fetch_all] on the next: step 1 binds the parameter, and step 2 then
    takes the closing parenthesis of the bind call and the stray one for
    its two, drops the stray one and sets the fetch call on a line of its
    own, indented like the bind call. *)
Theorem X_call_site_then_stray_fetch
  (pre post ws1 body ws2 param ws3 w1 w2 v : text) :
  well_formed ws1 body ws2 param ws3 = true ->
  own_lines w1 = true -> own_lines w2 = true -> is_variant v = true ->
  no_match_in pattern pre
    (call_site ws1 body ws2 param ws3 ++ w1 ++ str ")" ++ w2
     ++ str ".fetch_" ++ v ++ post) = true ->
  no_match pattern post = true ->
  no_match cleanup_pattern body = true ->
  fst (rewrite (pre ++ call_site ws1 body ws2 param ws3 ++ w1 ++ str ")"
                ++ w2 ++ str ".fetch_" ++ v ++ post))
  = step2 pre ++ query_part ws1 body ++ str ")" ++ [nl] ++ indent
    ++ str ".bind(" ++ param ++ str ")" ++ [nl] ++ indent ++ str ".fetch_"
    ++ v ++ step2 post.
Proof.
  intros W H1 H2 Hv Npre Npost Nbody.
  rewrite rewrite_fst.
  rewrite step1_skip by assumption. rewrite step1_site by assumption.
  assert (E : step1 (w1 ++ str ")" ++ w2 ++ str ".fetch_" ++ v ++ post)
              = w1 ++ str ")" ++ w2 ++ str ".fetch_" ++ v ++ post).
  { pose proof (own_lines_inv _ H1) as [A1 _].
    pose proof (own_lines_inv _ H2) as [A2 _].
    replace (w1 ++ str ")" ++ w2 ++ str ".fetch_" ++ v ++ post)
      with ((w1 ++ str ")" ++ w2 ++ str ".fetch_" ++ v) ++ post)
      by now rewrite <- !app_assoc.
    rewrite step1_no_s.
    - rewrite step1_no_match by assumption. now rewrite <- !app_assoc.
    - intro F. apply in_app_or in F as [F|F];
        [now apply (@no_s_in_class is_space w1 eq_refl A1)|].
      apply in_app_or in F as [F|F];
        [revert F; vm_compute; intuition discriminate|].
      apply in_app_or in F as [F|F];
        [now apply (@no_s_in_class is_space w2 eq_refl A2)|].
      apply in_app_or in F as [F|F];
        [revert F; vm_compute; intuition discriminate|].
      destruct (is_variant_cases _ Hv) as [-> | ->];
        revert F; vm_compute; intuition discriminate. }
  rewrite E.
  pose proof (well_formed_inv _ _ _ _ _ W) as (Hw & _ & _ & Hp & _ & _).
  rewrite step2_bound_call by assumption.
  change (str ")" ++ w1 ++ str ")" ++ w2 ++ str ".fetch_" ++ v ++ post)
    with (str ")" ++ w1 ++ str ")" ++ w2 ++ (str ".fetch_" ++ v ++ post)).
  replace (str ")" ++ w1 ++ str ")" ++ w2 ++ str ".fetch_" ++ v ++ post)
    with (stray_site w1 w2 v ++ post)
    by (unfold stray_site; now rewrite <- !app_assoc).
  rewrite step2_site by assumption. unfold collapsed.
  now rewrite <- !app_assoc.
Qed.

Lemma X_call_site_then_stray_fetch_witness :
  let site := call_site [nl] (str "SELECT 1") [nl] (str "tool") [nl] in
  fst (rewrite (str "let r = " ++ site ++ [nl] ++ str ")" ++ [nl]
                ++ str ".fetch_" ++ str "one" ++ str "(&pool)"))
  = str "let r = " ++ query_part [nl] (str "SELECT 1") ++ str ")" ++ [nl]
    ++ indent ++ str ".bind(tool)" ++ [nl] ++ indent
    ++ str ".fetch_one(&pool)".
Proof.
  intro site.
  refine (eq_trans
    (@X_call_site_then_stray_fetch (str "let r = ") (str "(&pool)")
       [nl] (str "SELECT 1") [nl] (str "tool") [nl] [nl] [nl] (str "one")
       _ _ _ _ _ _ _) eq_refl); vm_compute; reflexivity.
Defined.

(** ** Step 1, call site by call site *)

(** Every buffer is, in the eyes of step 1, a sequence of stretches in
    which the pattern matches nowhere with a well-formed call site after
    each, and a last stretch.  Step 1 keeps the stretches as they are and
    puts the bound call in place of each call site; the call sites of this
    reading are the ones it rewrites. *)
Theorem X_step1_call_site_by_call_site (content : text) :
  exists l post,
    content = laid_out l post
    /\ split_ok l post = true
    /\ step1 content = laid_out_bound l post
    /\ rewritten_sites content = length l.
Proof.
  destruct (reading_exists content) as (l & post & El & Hl). exists l, post.
  destruct (step1_laid_out l post Hl) as [E R].
  subst content. repeat split; assumption.
Qed.

(** ** Runs of the script that fail, and what a run leaves behind *)



(** A run of the script that ends without an exception found text at
    the target path, has put the rewritten text in its place, and has done,
    in this order: the copy, the line about the backup, the read, the write,
    the line about the fix, the count, the hint to build. *)
Theorem X_main_success (fs : path -> option data) (lk fo : path -> bool)
  (con : bool) :
  snd (main (World fs lk fo con [])) = Some tt ->
  exists orig,
    fs file_path = Some (Text orig)
    /\ files (fst (main (World fs lk fo con []))) file_path
       = Some (Text (fst (rewrite orig)))
    /\ log (fst (main (World fs lk fo con [])))
       = [Copied file_path backup_path; Printed (BackupCreated backup_path);
          Opened file_path; Written file_path (fst (rewrite orig));
          Printed (FixedSyntax file_path);
          Printed (FixedQueries (snd (rewrite orig))); Printed NowBuild].
Proof.
  rewrite main_run.
  destruct (fs file_path) as [c|]; [|discriminate].
  destruct (lk backup_path); [discriminate|].
  destruct (chmod_refused (World fs lk fo con []) backup_path);
    [discriminate|].
  cbv zeta. destruct con; cbn [negb]; [|discriminate].
  destruct c as [t|b]; [|discriminate].
  destruct (lk file_path); [discriminate|].
  intros _. exists t. cbn [fst files log]. rewrite put_same. now split.
Qed.

Lemma X_main_success_witness :
  let orig := call_site [] (str "SELECT 1") (str " ") (str "tool") [] in
  let fs := fun q => if String.eqb q file_path then Some (Text orig)
                     else None in
  let w := World fs (fun _ => false) (fun _ => false) true [] in
  exists t,
    fs file_path = Some (Text t)
    /\ files (fst (main w)) file_path = Some (Text (fst (rewrite t)))
    /\ log (fst (main w))
       = [Copied file_path backup_path; Printed (BackupCreated backup_path);
          Opened file_path; Written file_path (fst (rewrite t));
          Printed (FixedSyntax file_path);
          Printed (FixedQueries (snd (rewrite t))); Printed NowBuild].
Proof.
  intros orig fs w.
  exact (@X_main_success fs (fun _ => false) (fun _ => false) true eq_refl).
Defined.



(** The backup is one file, overwritten on every run: after a second
    run that ends without an exception it holds what the first run wrote,
    and the original content is in neither file unless the rewrite changes
    nothing. *)
Theorem X_second_run_overwrites_backup (fs : path -> option data)
  (lk fo : path -> bool) (con : bool) (orig : text) :
  fs file_path = Some (Text orig) ->
  let first := main (World fs lk fo con []) in
  let once := fst first in
  let second := main (World (files once) (locked once) (foreign once)
                        (console once) []) in
  let twice := fst second in
  snd first = Some tt -> snd second = Some tt ->
  files once backup_path = Some (Text orig)
  /\ files twice backup_path = Some (Text (fst (rewrite orig)))
  /\ files twice file_path
     = Some (Text (fst (rewrite (fst (rewrite orig))))).
Proof.
  intros F first once second twice. unfold twice, second, once, first.
  rewrite (main_run fs). rewrite F.
  destruct (lk backup_path); [discriminate|].
  destruct (chmod_refused (World fs lk fo con []) backup_path);
    [discriminate|].
  cbv zeta. destruct con; cbn [negb]; [|discriminate].
  destruct (lk file_path); [discriminate|].
  intros _. cbn [fst files locked foreign console].
  rewrite main_run. rewrite put_same.
  match goal with |- context [if ?b then _ else _] => destruct b end;
    [discriminate|].
  match goal with |- context [if ?b then _ else _] => destruct b end;
    [discriminate|].
  cbv zeta. cbn [negb].
  match goal with |- context [if ?b then _ else _] => destruct b end;
    [discriminate|].
  intros _. cbn [fst files]. rewrite !put_backup, put_same. now split.
Qed.

Lemma X_second_run_overwrites_backup_witness :
  let orig := call_site [] (str "SELECT 1") (str " ") (str "tool") [] in
  let fs := fun q => if String.eqb q file_path then Some (Text orig)
                     else None in
  let once := fst (main (World fs (fun _ => false) (fun _ => false) true
                           [])) in
  let twice := fst (main (World (files once) (locked once) (foreign once)
                            (console once) [])) in
  files twice backup_path
  = Some (Text (bound_call [] (str "SELECT 1") (str "tool"))).
Proof.
  intros orig fs once twice.
  exact (eq_trans
    (proj1 (proj2 (@X_second_run_overwrites_backup fs (fun _ => false)
                     (fun _ => false) true orig eq_refl eq_refl eq_refl)))
    eq_refl).
Defined.


